(** * omnipos-gateway: rate limiter, auth interceptor, endpoint discovery
      and response envelope marshaler

    A shallow embedding of the Go sources
      - package middleware, the rate limiter (RateLimiter.Limit, getLimit,
        getClientIP)
      - internal/middleware/jwt.go (JWTHelper.ValidateToken, ExtractMerchantID)
      - internal/middleware/auth_interceptor.go (AuthInterceptor.Unary)
      - internal/middleware/proto_reflection.go (DiscoverPublicEndpoints,
        isPublicEndpoint)
      - package runtime, the custom marshaler (CustomMarshaler.Marshal)
    with the library calls they make (net/http, strings, golang-jwt,
    grpc metadata, encoding/json, grpc-gateway) modelled beside them.
    Go strings are byte strings ([string]); Go [int], [int32] and
    [time.Duration] values are [Z]; a [float64] is a binary64 [float]; Go
    maps are [gmap]s. *)

From Stdlib Require Import ZArith Ascii String List Lia.
From Corelib Require Import PrimFloat SpecFloat FloatOps.
From stdpp Require Import base tactics option list gmap strings pretty sorting.

Local Open Scope Z_scope.
Local Open Scope string_scope.
Local Set Warnings "-register-all".

(** ** Go's [strings] package, on byte strings *)
Module GoStrings.

Definition byte_is (n : N) (c : ascii) : bool := N.eqb (N_of_ascii c) n.

(** [s] without the leading [p], when [s] starts with [p]. *)
Fixpoint StripPrefix (p s : string) : option string :=
  match p, s with
  | EmptyString, _ => Some s
  | String a p', String b s' => if Ascii.eqb a b then StripPrefix p' s' else None
  | String _ _, EmptyString => None
  end.

(** [strings.HasPrefix] *)
Definition HasPrefix (s p : string) : bool :=
  match StripPrefix p s with Some _ => true | None => false end.

(** [strings.TrimPrefix]: [s] without the leading [p], or [s] itself. *)
Definition TrimPrefix (s p : string) : string :=
  match StripPrefix p s with Some r => r | None => s end.

(** [strings.Contains s sep] for a one-byte separator. *)
Fixpoint ContainsByte (c : ascii) (s : string) : bool :=
  match s with
  | EmptyString => false
  | String a r => if Ascii.eqb a c then true else ContainsByte c r
  end.

(** [strings.Split(s, sep)[0]] for a one-byte separator: the bytes before
    the first separator, or all of [s] when there is none. *)
Fixpoint SplitFirst (c : ascii) (s : string) : string :=
  match s with
  | EmptyString => EmptyString
  | String a r => if Ascii.eqb a c then EmptyString else String a (SplitFirst c r)
  end.

(** [s[:strings.LastIndex(s, sep)]] for a one-byte separator, [None]
    when [LastIndex] is -1. *)
Fixpoint BeforeLast (c : ascii) (s : string) : option string :=
  match s with
  | EmptyString => None
  | String a r =>
      match BeforeLast c r with
      | Some p => Some (String a p)
      | None => if Ascii.eqb a c then Some EmptyString else None
      end
  end.

(** The ASCII white space of [strings.TrimSpace]'s fast path. *)
Definition asciiSpace (c : ascii) : bool :=
  byte_is 9 c || byte_is 10 c || byte_is 11 c || byte_is 12 c
  || byte_is 13 c || byte_is 32 c.

(** UTF-8 encodings of the non-ASCII runes of [unicode.IsSpace]:
    U+0085, U+00A0 (two bytes); U+1680, U+2000..U+200A, U+2028, U+2029,
    U+202F, U+205F, U+3000 (three bytes). *)
Definition space2 (b1 b2 : ascii) : bool :=
  byte_is 194 b1 && (byte_is 133 b2 || byte_is 160 b2).

Definition space3 (b1 b2 b3 : ascii) : bool :=
  (byte_is 225 b1 && byte_is 154 b2 && byte_is 128 b3)
  || (byte_is 226 b1 && byte_is 128 b2
      && ((N.leb 128 (N_of_ascii b3) && N.leb (N_of_ascii b3) 138)
          || byte_is 168 b3 || byte_is 169 b3 || byte_is 175 b3))
  || (byte_is 226 b1 && byte_is 129 b2 && byte_is 159 b3)
  || (byte_is 227 b1 && byte_is 128 b2 && byte_is 128 b3).

(** [strings.TrimLeftFunc(s, unicode.IsSpace)] *)
Fixpoint TrimLeftSpace (s : string) : string :=
  match s with
  | EmptyString => s
  | String a r =>
      if asciiSpace a then TrimLeftSpace r
      else match r with
           | String b r1 =>
               if space2 a b then TrimLeftSpace r1
               else match r1 with
                    | String c r2 => if space3 a b c then TrimLeftSpace r2 else s
                    | EmptyString => s
                    end
           | EmptyString => s
           end
  end.

(** The same scan from the end, on the reversed string: the last rune is
    a white-space rune exactly when the string ends with its encoding. *)
Fixpoint TrimLeftSpaceRev (s : string) : string :=
  match s with
  | EmptyString => s
  | String a r =>
      if asciiSpace a then TrimLeftSpaceRev r
      else match r with
           | String b r1 =>
               if space2 b a then TrimLeftSpaceRev r1
               else match r1 with
                    | String c r2 => if space3 c b a then TrimLeftSpaceRev r2 else s
                    | EmptyString => s
                    end
           | EmptyString => s
           end
  end.

Definition TrimRightSpace (s : string) : string :=
  String.rev (TrimLeftSpaceRev (String.rev s)).

(** [strings.TrimSpace] *)
Definition TrimSpace (s : string) : string := TrimRightSpace (TrimLeftSpace s).

(** [fmt.Sprintf("%d", n)] *)
Definition FormatInt (n : Z) : string := pretty n.

End GoStrings.

(** ** The parts of [net/http] the rate limiter touches *)
Module HTTP.
Import GoStrings.

(** [http.Header]: canonical field name to its values. *)
Abbreviation Header := (gmap string (list string)).

Definition validHeaderFieldByte (c : ascii) : bool :=
  let n := N_of_ascii c in
  (N.leb 48 n && N.leb n 57) || (N.leb 65 n && N.leb n 90)
  || (N.leb 97 n && N.leb n 122)
  || N.eqb n 33 || N.eqb n 35 || N.eqb n 36 || N.eqb n 37 || N.eqb n 38
  || N.eqb n 39 || N.eqb n 42 || N.eqb n 43 || N.eqb n 45 || N.eqb n 46
  || N.eqb n 94 || N.eqb n 95 || N.eqb n 96 || N.eqb n 124 || N.eqb n 126.

Fixpoint allValid (s : string) : bool :=
  match s with
  | EmptyString => true
  | String c r => validHeaderFieldByte c && allValid r
  end.

Definition toUpper (c : ascii) : ascii :=
  let n := N_of_ascii c in
  if N.leb 97 n && N.leb n 122 then ascii_of_N (n - 32) else c.

Definition toLower (c : ascii) : ascii :=
  let n := N_of_ascii c in
  if N.leb 65 n && N.leb n 90 then ascii_of_N (n + 32) else c.

Fixpoint canonicalize (upper : bool) (s : string) : string :=
  match s with
  | EmptyString => EmptyString
  | String c r =>
      let c' := if upper then toUpper c else toLower c in
      String c' (canonicalize (byte_is 45 c') r)
  end.

(** [textproto.CanonicalMIMEHeaderKey]: first letter and every letter
    after a dash in upper case, the others in lower case; a key holding a
    byte that is not a header token byte is left as it is. *)
Definition CanonicalMIMEHeaderKey (s : string) : string :=
  if allValid s then canonicalize true s else s.

(** [Header.Get]: the first value of the field, or the empty string. *)
Definition Header_Get (h : Header) (key : string) : string :=
  match h !! CanonicalMIMEHeaderKey key with
  | Some (v :: _) => v
  | _ => EmptyString
  end.

(** [Header.Set] *)
Definition Header_Set (key value : string) (h : Header) : Header :=
  <[CanonicalMIMEHeaderKey key := [value]]> h.

(** [Header.Del] *)
Definition Header_Del (key : string) (h : Header) : Header :=
  delete (CanonicalMIMEHeaderKey key) h.

(** [*http.Request], the fields read here. *)
Record Request := {
  req_Header : Header;
  req_RemoteAddr : string;
}.

(** What a handler has done to its [http.ResponseWriter]: the header map,
    the status line once written, and the body bytes. *)
Record ResponseWriter := {
  rw_Header : Header;
  rw_Status : option Z;
  rw_Body : string;
}.

Definition emptyResponse : ResponseWriter :=
  {| rw_Header := ∅; rw_Status := None; rw_Body := EmptyString |}.

Definition setHeader (key value : string) (w : ResponseWriter) : ResponseWriter :=
  {| rw_Header := Header_Set key value (rw_Header w);
     rw_Status := rw_Status w; rw_Body := rw_Body w |}.

Definition delHeader (key : string) (w : ResponseWriter) : ResponseWriter :=
  {| rw_Header := Header_Del key (rw_Header w);
     rw_Status := rw_Status w; rw_Body := rw_Body w |}.

(** [w.WriteHeader(code)]: only the first call counts. *)
Definition WriteHeader (code : Z) (w : ResponseWriter) : ResponseWriter :=
  match rw_Status w with
  | Some _ => w
  | None => {| rw_Header := rw_Header w; rw_Status := Some code; rw_Body := rw_Body w |}
  end.

(** [w.Write(b)]: an implicit [WriteHeader(200)] when none was written. *)
Definition Write (b : string) (w : ResponseWriter) : ResponseWriter :=
  let w1 := WriteHeader 200 w in
  {| rw_Header := rw_Header w1; rw_Status := rw_Status w1;
     rw_Body := rw_Body w1 +:+ b |}.

Definition StatusTooManyRequests : Z := 429.

Definition newline : string := String "010"%char EmptyString.

(** [http.Error(w, msg, code)] *)
Definition Error (msg : string) (code : Z) (w : ResponseWriter) : ResponseWriter :=
  let w1 := delHeader "Content-Length" w in
  let w2 := setHeader "Content-Type" "text/plain; charset=utf-8" w1 in
  let w3 := setHeader "X-Content-Type-Options" "nosniff" w2 in
  Write (msg +:+ newline) (WriteHeader code w3).

(** [http.Handler] *)
Definition Handler := Request → ResponseWriter → ResponseWriter.

End HTTP.

(** ** internal/middleware: the rate limiter *)
Module RateLimiter.
Import GoStrings HTTP.

(** [config.RateLimitConfig] *)
Record RateLimitConfig := {
  Enabled : bool;
  PublicRPS : Z;
  PublicBurst : Z;
  AuthRPS : Z;
  AuthBurst : Z;
}.

(** [time.Duration] constants, in nanoseconds. *)
Definition Millisecond : Z := 1000000.
Definition Second : Z := 1000000000.

(** [redis_rate.Limit] *)
Record redis_Limit := {
  Rate : Z;
  Burst : Z;
  Period : Z;
}.

(** [redis_rate.Result]; the two durations are in nanoseconds. *)
Record redis_Result := {
  Allowed : Z;
  Remaining : Z;
  RetryAfter : Z;
  ResetAfter : Z;
}.

(** A line written through the logger. *)
Inductive LogEntry :=
| LogError (msg : string) (err : string).

Definition colon : ascii := ":"%char.
Definition comma : ascii := ","%char.

(** [getClientIP] *)
Definition getClientIP (r : Request) : string :=
  let xff := Header_Get (req_Header r) "X-Forwarded-For" in
  if negb (String.eqb xff EmptyString) then
    TrimSpace (SplitFirst comma xff)
  else
    let xrp := Header_Get (req_Header r) "X-Real-IP" in
    if negb (String.eqb xrp EmptyString) then xrp
    else
      let addr := req_RemoteAddr r in
      if ContainsByte colon addr then
        match BeforeLast colon addr with
        | Some p => p
        | None => addr
        end
      else addr.

(** [RateLimiter.getLimit] *)
Definition getLimit (cfg : RateLimitConfig) (r : Request) : string * redis_Limit :=
  let authHeader := Header_Get (req_Header r) "Authorization" in
  if negb (String.eqb authHeader EmptyString) then
    ("rate_limit:auth:" +:+ authHeader,
     {| Rate := AuthRPS cfg; Burst := AuthBurst cfg; Period := Second |})
  else
    let ip := getClientIP r in
    ("rate_limit:ip:" +:+ ip,
     {| Rate := PublicRPS cfg; Burst := PublicBurst cfg; Period := Second |}).

Section Limit.
(** [rl.limiter.Allow(ctx, key, limit)]: the Redis-backed counter store,
    answering with a result or an error. *)
Variable Allow : string → redis_Limit → redis_Result + string.

(** [RateLimiter.Limit]: the handler wrapped around [next]; returns the
    response writer and what the limiter logged. *)
Definition Limit (cfg : RateLimitConfig) (next : Handler)
    (r : Request) (w : ResponseWriter) : ResponseWriter * list LogEntry :=
  if negb (Enabled cfg) then (next r w, [])
  else
    let '(key, limit) := getLimit cfg r in
    match Allow key limit with
    | inr err => (next r w, [LogError "rate limit error" err])
    | inl res =>
        let w1 := setHeader "X-RateLimit-Limit" (FormatInt (Rate limit)) w in
        let w2 := setHeader "X-RateLimit-Remaining" (FormatInt (Remaining res)) w1 in
        let w3 := setHeader "X-RateLimit-Reset"
                    (FormatInt (Z.quot (ResetAfter res) Millisecond)) w2 in
        if Z.eqb (Allowed res) 0 then
          let w4 := setHeader "Retry-After"
                      (FormatInt (Z.quot (RetryAfter res) Second)) w3 in
          (HTTP.Error "Too Many Requests" StatusTooManyRequests w4, [])
        else (next r w3, [])
    end.
End Limit.

(** *** Vocabulary of the properties, and sample data *)

(** The port-stripping of [getClientIP] on a peer address. *)
Definition stripPort (addr : string) : string :=
  getClientIP {| req_Header := ∅; req_RemoteAddr := addr |}.

(** The three headers the limiter sets on every answered call. *)
Definition withLimitHeaders (limit : redis_Limit) (res : redis_Result)
    (w : ResponseWriter) : ResponseWriter :=
  setHeader "X-RateLimit-Reset" (FormatInt (Z.quot (ResetAfter res) Millisecond))
    (setHeader "X-RateLimit-Remaining" (FormatInt (Remaining res))
       (setHeader "X-RateLimit-Limit" (FormatInt (Rate limit)) w)).

(** A request with a credential, and a limiter configuration. *)
Definition sampleConfig : RateLimitConfig :=
  {| Enabled := true; PublicRPS := 10; PublicBurst := 20;
     AuthRPS := 100; AuthBurst := 200 |}.

Definition sampleAuthRequest : Request :=
  {| req_Header := {[ "Authorization" := ["Bearer abc"] ]};
     req_RemoteAddr := "10.0.0.9:4711" |}.

Definition sampleAnonRequest : Request :=
  {| req_Header := {[ "X-Forwarded-For" := [" 203.0.113.7 , 10.0.0.1"] ]};
     req_RemoteAddr := "10.0.0.9:4711" |}.

(** A request whose forwarded-for header starts with a comma, so that its
    first field is empty, and which carries a real-IP header. *)
Definition emptyFirstHopRequest : Request :=
  {| req_Header := {[ "X-Forwarded-For" := [", 10.0.0.1"];
                      "X-Real-Ip" := ["198.51.100.4"] ]};
     req_RemoteAddr := "10.0.0.9:4711" |}.

(** A counter store that fails, one that allows and one that denies. *)
Definition storeDown (key : string) (limit : redis_Limit) : redis_Result + string :=
  inr "dial tcp: connection refused".

Definition storeAllows (key : string) (limit : redis_Limit) : redis_Result + string :=
  inl {| Allowed := 1; Remaining := Rate limit - 1; RetryAfter := -1; ResetAfter := 10000000 |}.

Definition storeDenies (key : string) (limit : redis_Limit) : redis_Result + string :=
  inl {| Allowed := 0; Remaining := 0; RetryAfter := 2500000000; ResetAfter := 2500000000 |}.

(** A next handler that answers 200 with a body. *)
Definition okHandler (r : Request) (w : ResponseWriter) : ResponseWriter :=
  Write "ok" (WriteHeader 200 w).

End RateLimiter.

(** ** internal/middleware/jwt.go: the credential validator *)
Module JWT.

(** The families of [jwt.SigningMethod]. *)
Inductive SigningMethod :=
| SigningMethodHMAC
| SigningMethodRSA
| SigningMethodECDSA
| SigningMethodEd25519
| SigningMethodNone.

(** What the library's claims validator finds wrong with the claims. *)
Inductive claimError :=
| ErrTokenExpired
| ErrTokenNotValidYet.

(** Errors as Go compares them with [==]: the two sentinels of jwt.go and
    the error values built by the golang-jwt library, which are never
    identical to a sentinel of this package, also when they wrap one.
    [ErrParseUnverified] is the error of a token that does not decode: the
    library's "malformed" error, or its "unverifiable" error for a header
    whose alg is missing or names no registered signing method; it wraps
    no error of this package. [ErrTokenUnverifiable cause] is the
    library's "unverifiable" error around the error [cause] of the key
    function. *)
Inductive error :=
| ErrInvalidToken
| ErrExpiredToken
| ErrParseUnverified
| ErrTokenUnverifiable (cause : error)
| ErrTokenSignatureInvalid
| ErrTokenInvalidClaims (causes : list claimError).

Definition error_eqb (e1 e2 : error) : bool :=
  match e1, e2 with
  | ErrInvalidToken, ErrInvalidToken => true
  | ErrExpiredToken, ErrExpiredToken => true
  | _, _ => false
  end.

(** [JWTClaims]: the merchant id and the registered claims the code and
    the library's default validator read (times as instants on one
    clock). *)
Record JWTClaims := {
  MerchantID : string;
  ExpiresAt : option Z;
  NotBefore : option Z;
  IssuedAt : option Z;
}.

(** A token string once its three segments are decoded: the registered
    signing method its header names, which keys its signature verifies
    under, and its claims. *)
Record RawToken := {
  raw_Method : SigningMethod;
  raw_Verify : string → bool;
  raw_Claims : JWTClaims;
}.

(** [*jwt.Token] as returned by the parser. *)
Record Token := {
  Claims : JWTClaims;
  Valid : bool;
}.

(** [JWTHelper] *)
Record JWTHelper := { secretKey : string }.

Section Validate.
(** Segment splitting, base64 and JSON decoding of a token string and the
    lookup of the signing method its header names
    ([Parser.ParseUnverified] of golang-jwt); [None] for a token that is
    malformed or names no registered method. *)
Variable ParseUnverified : string → option RawToken.

(** The default claims validator of golang-jwt v5 at time [now]:
    [exp], when present, must be after [now]; [nbf], when present, must
    not be after [now]; the failures are collected. *)
Definition verifyExpiresAt (c : JWTClaims) (now : Z) : list claimError :=
  match ExpiresAt c with
  | Some e => if Z.ltb now e then [] else [ErrTokenExpired]
  | None => []
  end.

Definition verifyNotBefore (c : JWTClaims) (now : Z) : list claimError :=
  match NotBefore c with
  | Some n => if Z.ltb now n then [ErrTokenNotValidYet] else []
  | None => []
  end.

Definition Validate (c : JWTClaims) (now : Z) : list claimError :=
  verifyExpiresAt c now ++ verifyNotBefore c now.

(** [jwt.ParseWithClaims] of golang-jwt v5: decode, ask the key
    function for the key, verify the signature, validate the claims. *)
Definition ParseWithClaims (tokenString : string)
    (keyFunc : SigningMethod → string + error) (now : Z) : Token + error :=
  match ParseUnverified tokenString with
  | None => inr ErrParseUnverified
  | Some raw =>
      match keyFunc (raw_Method raw) with
      | inr e => inr (ErrTokenUnverifiable e)
      | inl key =>
          if negb (raw_Verify raw key) then inr ErrTokenSignatureInvalid
          else match Validate (raw_Claims raw) now with
               | [] => inl {| Claims := raw_Claims raw; Valid := true |}
               | errs => inr (ErrTokenInvalidClaims errs)
               end
      end
  end.

(** The key function of [ValidateToken] (jwt.go, lines 35-41). *)
Definition keyFunc (h : JWTHelper) (m : SigningMethod) : string + error :=
  match m with
  | SigningMethodHMAC => inl (secretKey h)
  | _ => inr ErrInvalidToken
  end.

(** [JWTHelper.ValidateToken]. [now_parse] is the clock as the library
    reads it while parsing, [now_check] the later [time.Now()] of
    line 53. *)
Definition ValidateToken (h : JWTHelper) (now_parse now_check : Z)
    (tokenString : string) : JWTClaims + error :=
  match ParseWithClaims tokenString (keyFunc h) now_parse with
  | inr err => inr err
  | inl token =>
      if negb (Valid token) then inr ErrInvalidToken
      else
        let claims := Claims token in
        match ExpiresAt claims with
        | Some e => if Z.ltb e now_check then inr ErrExpiredToken else inl claims
        | None => inl claims
        end
  end.

(** [JWTHelper.ExtractMerchantID] *)
Definition ExtractMerchantID (h : JWTHelper) (now_parse now_check : Z)
    (tokenString : string) : string + error :=
  match ValidateToken h now_parse now_check tokenString with
  | inr err => inr err
  | inl claims => inl (MerchantID claims)
  end.
End Validate.

End JWT.

(** ** internal/middleware/auth_interceptor.go *)
Module Auth.
Import GoStrings JWT.

(** [metadata.MD] *)
Abbreviation MD := (gmap string (list string)).

(** The metadata a [context.Context] carries. *)
Record Context := {
  incoming : option MD;
  outgoing : option MD;
}.

Definition FromIncomingContext (ctx : Context) : MD * bool :=
  match incoming ctx with Some md => (md, true) | None => (∅, false) end.

Definition FromOutgoingContext (ctx : Context) : MD * bool :=
  match outgoing ctx with Some md => (md, true) | None => (∅, false) end.

Definition NewOutgoingContext (ctx : Context) (md : MD) : Context :=
  {| incoming := incoming ctx; outgoing := Some md |}.

(** [md.Get(k)] for a lower-case key. *)
Definition MD_Get (md : MD) (k : string) : list string :=
  match md !! k with Some vs => vs | None => [] end.

(** [metadata.Pairs(k, v)] *)
Definition Pairs (k v : string) : MD := {[ k := [v] ]}.

(** [metadata.Join(a, b)]: the values of [b] appended to those of [a]. *)
Definition Join (a b : MD) : MD := union_with (λ x y : list string, Some (x ++ y)%list) a b.

Definition len_MD (md : MD) : nat := size md.

(** [codes.Unauthenticated] *)
Definition Unauthenticated : Z := 16.

(** A gRPC status error: code and message. *)
Record Status := { st_Code : Z; st_Message : string }.

Definition status_Error (c : Z) (msg : string) : Status :=
  {| st_Code := c; st_Message := msg |}.

(** [AuthInterceptor] *)
Record AuthInterceptor := {
  jwtHelper : JWTHelper;
  publicEndpoints : gmap string bool;
}.

(** [a.publicEndpoints[method]]: [false] for a missing key. *)
Definition isPublic (a : AuthInterceptor) (method : string) : bool :=
  match publicEndpoints a !! method with Some b => b | None => false end.

(** One call of the invoker: the context and method it was given. *)
Definition Call : Type := Context * string.

Section Unary.
Variable ParseUnverified : string → option RawToken.
(** The backend call: [None] for a nil error. *)
Variable invoker : Context → string → option Status.
(** The two clock readings of [ValidateToken]. *)
Variables now_parse now_check : Z.

Definition reject (msg : string) : list Call * option Status :=
  ([], Some (status_Error Unauthenticated msg)).

Definition invoke (ctx : Context) (method : string) : list Call * option Status :=
  ([(ctx, method)], invoker ctx method).

(** Lines 49-53: the incoming metadata, or the outgoing metadata when the
    incoming is missing or empty. *)
Definition requestMetadata (ctx : Context) : MD * bool :=
  let '(md, ok) := FromIncomingContext ctx in
  if negb ok || Nat.eqb (len_MD md) 0 then FromOutgoingContext ctx
  else (md, ok).

(** Lines 67-71: the values under "authorization", or those under
    "grpcgateway-authorization" when there are none. *)
Definition authorizationValues (md : MD) : list string :=
  let authHeaders := MD_Get md "authorization" in
  if Nat.eqb (length authHeaders) 0
  then MD_Get md "grpcgateway-authorization" else authHeaders.

(** The interceptor returned by [AuthInterceptor.Unary]: the invoker
    calls it made and the error it returned. *)
Definition Unary (a : AuthInterceptor) (ctx : Context) (method : string)
    : list Call * option Status :=
  if isPublic a method then invoke ctx method
  else
    let '(md, ok) := requestMetadata ctx in
    if negb ok || Nat.eqb (len_MD md) 0 then
      reject "missing authorization header"
    else
      match authorizationValues md with
      | [] => reject "missing authorization header"
      | authHeader :: _ =>
          if negb (HasPrefix authHeader "Bearer ") then
            reject "invalid authorization header format"
          else
            let token := TrimPrefix authHeader "Bearer " in
            match ExtractMerchantID ParseUnverified (jwtHelper a)
                    now_parse now_check token with
            | inr err =>
                if error_eqb err ErrExpiredToken
                then reject "token has expired"
                else reject "invalid token"
            | inl merchantID =>
                let outgoingMD := Pairs "x-merchant-id" merchantID in
                let outgoingMD :=
                  match FromOutgoingContext ctx with
                  | (existingMD, true) => Join existingMD outgoingMD
                  | (_, false) => outgoingMD
                  end in
                invoke (NewOutgoingContext ctx outgoingMD) method
            end
      end.
End Unary.

(** *** Sample data *)

(** A token string that decodes to a token signed with HMAC under the
    key "s3cret", for merchant "m-1", with expiry at 1000. *)
Definition sampleRaw : RawToken :=
  {| raw_Method := SigningMethodHMAC;
     raw_Verify := λ key, String.eqb key "s3cret";
     raw_Claims := {| MerchantID := "m-1"; ExpiresAt := Some 1000;
                      NotBefore := None; IssuedAt := Some 900 |} |}.

Definition sampleParser (tokenString : string) : option RawToken :=
  if String.eqb tokenString "aaa.bbb.ccc" then Some sampleRaw else None.

Definition sampleInvoker (ctx : Context) (method : string) : option Status := None.

Definition sampleInterceptor : AuthInterceptor :=
  {| jwtHelper := {| secretKey := "s3cret" |};
     publicEndpoints := {[ "/user.v1.MerchantService/LoginMerchant" := true ]} |}.

Definition sampleContext : Context :=
  {| incoming := Some {[ "authorization" := ["Bearer aaa.bbb.ccc"] ]};
     outgoing := None |}.

Definition basicContext : Context :=
  {| incoming := Some {[ "authorization" := ["Basic dXNlcjpwdw=="] ]};
     outgoing := None |}.

Definition emptyContext : Context := {| incoming := None; outgoing := None |}.

End Auth.


(** ** internal/middleware/proto_reflection.go: public endpoint discovery *)
Module Reflection.

(** The dynamic value [proto.GetExtension] returns: the extension is
    declared as a bool; any other dynamic type fails the assertion of
    line 68. *)
Inductive ExtensionValue :=
| ExtBool (b : bool)
| ExtOther.

(** [MethodOptions]: the [auth.v1.public_endpoint] extension, [None] when
    the field is not set ([proto.HasExtension] is false). *)
Record MethodOptions := {
  E_PublicEndpoint : option ExtensionValue;
}.

(** [protoreflect.MethodDescriptor]; [md_Options] is [None] for nil options. *)
Record MethodDescriptor := {
  md_Name : string;
  md_Options : option MethodOptions;
}.

(** [protoreflect.ServiceDescriptor] *)
Record ServiceDescriptor := {
  sd_FullName : string;
  sd_Methods : list MethodDescriptor;
}.

(** [protoreflect.FileDescriptor] *)
Record FileDescriptor := {
  fd_Services : list ServiceDescriptor;
}.

(** [isPublicEndpoint] *)
Definition isPublicEndpoint (method : MethodDescriptor) : bool :=
  match md_Options method with
  | None => false
  | Some opts =>
      match E_PublicEndpoint opts with
      | Some publicEndpoint =>
          match publicEndpoint with
          | ExtBool val => val
          | ExtOther => false
          end
      | None => false
      end
  end.

(** [fmt.Sprintf("/%s/%s", service.FullName(), method.Name())] *)
Definition fullMethodName (service : ServiceDescriptor) (method : MethodDescriptor) : string :=
  "/" +:+ sd_FullName service +:+ "/" +:+ md_Name method.

(** The loop over the methods of one service (lines 38-48). *)
Definition scanMethods (service : ServiceDescriptor)
    (publicEndpoints : gmap string bool) : gmap string bool :=
  foldl (λ acc method,
           if isPublicEndpoint method
           then <[fullMethodName service method := true]> acc
           else acc)
        publicEndpoints (sd_Methods service).

(** The loop over the services of one file (lines 33-49). *)
Definition scanFile (publicEndpoints : gmap string bool) (fd : FileDescriptor)
    : gmap string bool :=
  foldl (λ acc service, scanMethods service acc) publicEndpoints (fd_Services fd).

(** [protoregistry.GlobalFiles.RangeFiles] with the callback of
    lines 32-51, which never stops the iteration. *)
Definition scanFiles (files : list FileDescriptor) : gmap string bool :=
  foldl scanFile ∅ files.

(** [DiscoverPublicEndpoints]: [cache] is the package variable
    [publicEndpointsCache] ([None] for nil); returns the map and the new
    value of the variable. *)
Definition DiscoverPublicEndpoints (files : list FileDescriptor)
    (cache : option (gmap string bool))
    : gmap string bool * option (gmap string bool) :=
  match cache with
  | Some c => (c, cache)
  | None =>
      let publicEndpoints := scanFiles files in
      (publicEndpoints, Some publicEndpoints)
  end.

(** *** Vocabulary of the properties *)

(** All values of the map are [true]. *)
Definition allTrue (m : gmap string bool) : Prop :=
  ∀ (k : string) (b : bool), m !! k = Some b → b = true.

(** *** Sample data: a service with a public and two protected methods *)

Definition loginMethod : MethodDescriptor :=
  {| md_Name := "LoginMerchant";
     md_Options := Some {| E_PublicEndpoint := Some (ExtBool true) |} |}.

Definition getMethod : MethodDescriptor :=
  {| md_Name := "GetMerchant"; md_Options := None |}.

Definition updateMethod : MethodDescriptor :=
  {| md_Name := "UpdateMerchant";
     md_Options := Some {| E_PublicEndpoint := Some (ExtBool false) |} |}.

Definition merchantService : ServiceDescriptor :=
  {| sd_FullName := "user.v1.MerchantService";
     sd_Methods := [loginMethod; getMethod; updateMethod] |}.

Definition sampleFiles : list FileDescriptor :=
  [ {| fd_Services := [] |}; {| fd_Services := [merchantService] |} ].

End Reflection.


(** ** internal/runtime: the response envelope marshaler *)
Module Marshaler.
Import GoStrings.

(** A JSON document as it is written out: the members of an object in the
    order they are emitted. *)
Inductive json :=
| JNull
| JBool (b : bool)
| JInt (n : Z)
| JFloat (f : float)
| JString (s : string)
| JArray (elems : list json)
| JObject (members : list (string * json)).

(** The result of a Go call returning [(T, error)]. *)
Definition result (T : Type) : Type := T + string.

(** The dynamic values an [interface{}] of a [map[string]interface{}]
    holds: the kinds the type switch of lines 46-58 tells apart, the other
    scalars, and any other value, carried as what [encoding/json] makes of
    it. *)
Inductive dyn :=
| DNil
| DBool (b : bool)
| DInt (val : Z)
| DInt32 (val : Z)
| DInt64 (val : Z)
| DFloat64 (val : float)
| DString (s : string)
| DOther (enc : result json).

Definition is_finite (f : float) : bool :=
  match Prim2SF f with
  | S754_zero _ | S754_finite _ _ _ => true
  | S754_infinity _ | S754_nan => false
  end.

(** The text of [*json.UnsupportedValueError] for a [float64] that is not
    finite: the value as [strconv.FormatFloat(f, 'g', -1, 64)] writes
    it. *)
Definition unsupportedValue (f : float) : string :=
  "json: unsupported value: "
  +:+ match Prim2SF f with
      | S754_infinity false => "+Inf"
      | S754_infinity true => "-Inf"
      | _ => "NaN"
      end.

(** [json.Marshal] on one dynamic value; NaN and the infinities are
    unsupported values. *)
Definition json_Marshal_dyn (d : dyn) : result json :=
  match d with
  | DNil => inl JNull
  | DBool b => inl (JBool b)
  | DInt n | DInt32 n | DInt64 n => inl (JInt n)
  | DFloat64 f => if is_finite f then inl (JFloat f) else inr (unsupportedValue f)
  | DString s => inl (JString s)
  | DOther enc => enc
  end.

(** The entries of a map in the order [encoding/json] emits them: sorted
    by key, bytewise. *)
Definition sortedEntries (m : gmap string dyn) : list (string * dyn) :=
  merge_sort (λ a b, String.le a.1 b.1) (map_to_list m).

Fixpoint marshalEntries (es : list (string * dyn)) : result (list (string * json)) :=
  match es with
  | [] => inl []
  | (k, d) :: rest =>
      match json_Marshal_dyn d with
      | inr e => inr e
      | inl j =>
          match marshalEntries rest with
          | inr e => inr e
          | inl js => inl ((k, j) :: js)
          end
      end
  end.

(** [json.Marshal] on a [map[string]interface{}]. *)
Definition json_Marshal_map (m : gmap string dyn) : result json :=
  match marshalEntries (sortedEntries m) with
  | inl js => inl (JObject js)
  | inr e => inr e
  end.

(** [float64] to [int]: truncation toward zero when the result fits an
    [int]; [None] when it does not (then Go leaves the value to the
    implementation). *)
Definition float64_trunc (f : float) : option Z :=
  match Prim2SF f with
  | S754_zero _ => Some 0
  | S754_finite s m e =>
      let a := if Z.leb 0 e then Z.pos m * 2 ^ e else Z.pos m / 2 ^ (- e) in
      let t := if s then - a else a in
      if Z.leb (- 2 ^ 63) t && Z.ltb t (2 ^ 63) then Some t else None
  | S754_infinity _ | S754_nan => None
  end.

(** [codes.Code(n)]: conversion to [uint32]. *)
Definition Code (n : Z) : Z := n mod 2 ^ 32.

(** [runtime.HTTPStatusFromCode] of grpc-gateway. *)
Definition HTTPStatusFromCode (code : Z) : Z :=
  match code with
  | 0 => 200   (* OK *)
  | 1 => 499   (* Canceled *)
  | 2 => 500   (* Unknown *)
  | 3 => 400   (* InvalidArgument *)
  | 4 => 504   (* DeadlineExceeded *)
  | 5 => 404   (* NotFound *)
  | 6 => 409   (* AlreadyExists *)
  | 7 => 403   (* PermissionDenied *)
  | 8 => 429   (* ResourceExhausted *)
  | 9 => 400   (* FailedPrecondition *)
  | 10 => 409  (* Aborted *)
  | 11 => 400  (* OutOfRange *)
  | 12 => 501  (* Unimplemented *)
  | 13 => 500  (* Internal *)
  | 14 => 503  (* Unavailable *)
  | 15 => 500  (* DataLoss *)
  | 16 => 401  (* Unauthenticated *)
  | _ => 500
  end.

(** Bytes [encoding/json] copies into a string literal as they are:
    printable ASCII other than the double quote, the backslash and the
    HTML characters [<], [>], [&]. *)
Definition safeByte (c : ascii) : bool :=
  let n := N_of_ascii c in
  N.leb 32 n && N.leb n 126
  && negb (N.eqb n 34 || N.eqb n 92 || N.eqb n 60 || N.eqb n 62 || N.eqb n 38).

Fixpoint allSafe (s : string) : bool :=
  match s with
  | EmptyString => true
  | String c r => safeByte c && allSafe r
  end.

Definition dquote : string := String "034"%char EmptyString.

Section Marshal.
(** The value [int(f)] takes where [f] does not fit an [int]. *)
Variable int_of_unrepresentable : float → Z.
(** The number literal [encoding/json] writes for a finite [float64]. *)
Variable FormatFloat : float → string.
(** The inside of the string literal [encoding/json] writes for a string
    that needs escapes. *)
Variable escapeString : string → string.
(** The Go values that are neither a [map[string]interface{}] nor a
    [*status.Status]: proto messages and the like. *)
Variable payload : Type.

(** The argument of [Marshal], by the dynamic types it tells apart: a
    [map[string]interface{}], a [*status.Status] that is not nil, with its
    code and message, and a value of any other type (a proto message, a
    [map[string]string], ...). A nil [*status.Status] is no [Value]:
    line 76 dereferences the pointer and the call panics. *)
Inductive Value :=
| VMap (m : gmap string dyn)
| VStatus (code : Z) (message : string)
| VOther (p : payload).

(** [c.JSONPb.Marshal], the embedded grpc-gateway marshaler. *)
Variable JSONPb_Marshal : Value → result json.

(** [int(val)] for a [float64]. *)
Definition float64_to_int (f : float) : Z :=
  match float64_trunc f with
  | Some t => t
  | None => int_of_unrepresentable f
  end.

Definition quote (s : string) : string :=
  dquote +:+ (if allSafe s then s else escapeString s) +:+ dquote.

Definition join (sep : string) (l : list string) : string :=
  match l with
  | [] => EmptyString
  | x :: rest => foldl (λ acc y, acc +:+ sep +:+ y) x rest
  end.

(** The bytes of a document, compact, as [encoding/json] writes them. The
    data of the success path comes from the embedded marshaler and is
    copied compacted; its strings and numbers are taken to be written the
    same way. *)
Fixpoint render (j : json) : string :=
  match j with
  | JNull => "null"
  | JBool true => "true"
  | JBool false => "false"
  | JInt n => FormatInt n
  | JFloat f => FormatFloat f
  | JString s => quote s
  | JArray elems => "[" +:+ join "," (map render elems) +:+ "]"
  | JObject members =>
      "{" +:+ join "," (map (λ kv, quote kv.1 +:+ ":" +:+ render kv.2) members) +:+ "}"
  end.

(** The switch of lines 43-58: the status for the value under "code". *)
Definition statusCodeOf (code : dyn) : Z :=
  match code with
  | DInt val => HTTPStatusFromCode (Code val)
  | DFloat64 val => HTTPStatusFromCode (Code (float64_to_int val))
  | DInt32 val => HTTPStatusFromCode (Code val)
  | _ => 200
  end.

(** The map literal of lines 65-69 and 77-81. *)
Definition failureMap (statusCode : Z) (msg : dyn) : gmap string dyn :=
  <["status" := DInt statusCode]> (<["message" := msg]> (<["data" := DNil]> ∅)).

(** [json.Marshal] on the [StandardResponse] struct of lines 92-103:
    fields in declaration order, [Data] raw. *)
Definition json_Marshal_StandardResponse (status : Z) (message : string) (data : json)
    : result json :=
  inl (JObject [("status", JInt status); ("message", JString message); ("data", data)]).

(** [CustomMarshaler.Marshal], up to the document it writes. *)
Definition MarshalDoc (v : Value) : result json :=
  let errorBranch :=
    match v with
    | VMap errMap =>
        match errMap !! "code" with
        | Some code =>
            match errMap !! "message" with
            | Some msg => Some (json_Marshal_map (failureMap (statusCodeOf code) msg))
            | None => None
            end
        | None => None
        end
    | _ => None
    end in
  match errorBranch with
  | Some r => r
  | None =>
      match v with
      | VStatus code message =>
          let statusCode := HTTPStatusFromCode (Code code) in
          json_Marshal_map (failureMap statusCode (DString message))
      | _ =>
          match JSONPb_Marshal v with
          | inr err => inr err
          | inl data => json_Marshal_StandardResponse 200 "success" data
          end
      end
  end.

(** [CustomMarshaler.Marshal] *)
Definition Marshal (v : Value) : result string :=
  match MarshalDoc v with
  | inl j => inl (render j)
  | inr err => inr err
  end.

(** [CustomMarshaler.ContentType] *)
Definition ContentType (v : Value) : string := "application/json".

End Marshal.

Arguments VMap {payload} m.
Arguments VStatus {payload} code message.
Arguments VOther {payload} p.
Arguments MarshalDoc int_of_unrepresentable {payload} JSONPb_Marshal v.
Arguments Marshal int_of_unrepresentable FormatFloat escapeString {payload} JSONPb_Marshal v.

(** The three-key envelope: an object whose members are "status" with an
    integer, "message" and "data", in some order. *)
Definition isEnvelope (j : json) : Prop :=
  ∃ members st msg d,
    j = JObject members
    ∧ members ≡ₚ [("status", JInt st); ("message", msg); ("data", d)].

(** A body that is the bytes of an envelope, however strings and floats
    are written. *)
Definition EnvelopeBody (body : string) : Prop :=
  ∃ (FormatFloat : float → string) (escapeString : string → string) (j : json),
    isEnvelope j ∧ body = render FormatFloat escapeString j.

(** *** Vocabulary of the properties, and sample data *)

(** The values that take the success path. *)
Definition successPath {payload : Type} (v : Value payload) : Prop :=
  match v with
  | VMap m => m !! "code" = None ∨ m !! "message" = None
  | VStatus _ _ => False
  | VOther _ => True
  end.

(** A string between double quotes. *)
Definition q (s : string) : string := dquote +:+ s +:+ dquote.

(** The bytes of the two envelopes of C8 as the claim writes them, and the
    bytes of the failure envelope with its members sorted by key. *)
Definition successBytes : string :=
  "{" +:+ q "status" +:+ ":200," +:+ q "message" +:+ ":" +:+ q "success" +:+ ","
  +:+ q "data" +:+ ":{" +:+ q "foo" +:+ ":" +:+ q "bar" +:+ "}}".

Definition claimedFailureBytes : string :=
  "{" +:+ q "status" +:+ ":404," +:+ q "message" +:+ ":" +:+ q "merchant not found"
  +:+ "," +:+ q "data" +:+ ":null}".

Definition sortedFailureBytes : string :=
  "{" +:+ q "data" +:+ ":null," +:+ q "message" +:+ ":" +:+ q "merchant not found"
  +:+ "," +:+ q "status" +:+ ":404}".

(** A runtime for the examples: conversions that do not fit give the
    smallest int, no float is written and no string needs escapes, and the
    embedded marshaler writes maps as [encoding/json] does. *)
Definition sampleOverflow (f : float) : Z := - 2 ^ 63.

Definition sampleFormatFloat (f : float) : string := "0".

Definition sampleEscape (s : string) : string := s.

Definition sampleJSONPb (v : Value unit) : result json :=
  match v with
  | VMap m => json_Marshal_map m
  | VStatus _ _ => inr "not reached"
  | VOther _ => inl (JObject [])
  end.

(** A success payload that happens to hold a "code" and a "message". *)
Definition orderPayload : gmap string dyn :=
  {[ "code" := DString "A-17"; "message" := DString "order placed";
     "total" := DInt 3 ]}.

(** A [map[string]string] with the same two keys, and the embedded
    marshaler on such maps: an object of strings, the keys sorted. *)
Definition orderStrings : gmap string string :=
  {[ "code" := "A-17"; "message" := "order placed" ]}.

Definition stringMapJSONPb (v : Value (gmap string string)) : result json :=
  match v with
  | VMap m => json_Marshal_map m
  | VStatus _ _ => inr "not reached"
  | VOther m =>
      inl (JObject (map (λ kv, (kv.1, JString kv.2))
                      (merge_sort (λ a b, String.le a.1 b.1) (map_to_list m))))
  end.

End Marshaler.


(** ** package middleware: the CORS middleware, and the handler chain of
    main.go *)
Module CORS.
Import GoStrings HTTP RateLimiter.

(** A request with its method, which the CORS middleware reads; the rest
    is the request as the limiter reads it. *)
Record MethodRequest := {
  req_Method : string;
  req_Base : Request;
}.

Definition MethodHandler := MethodRequest → ResponseWriter → ResponseWriter.

Definition StatusOK : Z := 200.

(** The four [w.Header().Set] calls of [CORS]. *)
Definition corsHeaders (w : ResponseWriter) : ResponseWriter :=
  setHeader "Access-Control-Allow-Credentials" "true"
    (setHeader "Access-Control-Allow-Headers"
       "Content-Type, Authorization, X-Requested-With"
       (setHeader "Access-Control-Allow-Methods"
          "GET, POST, PUT, DELETE, OPTIONS, PATCH"
          (setHeader "Access-Control-Allow-Origin" "*" w))).

(** [CORS] *)
Definition CORS (next : MethodHandler) : MethodHandler :=
  λ r w,
    let w' := corsHeaders w in
    if String.eqb (req_Method r) "OPTIONS" then WriteHeader StatusOK w'
    else next r w'.

(** [middleware.CORS(rateLimiter.Limit(httpMux))] of main.go, as the
    response it writes (the log lines of the limiter are left out). *)
Definition gatewayHandler (Allow : string → redis_Limit → redis_Result + string)
    (cfg : RateLimitConfig) (httpMux : MethodHandler) : MethodHandler :=
  CORS (λ r w,
          (Limit Allow cfg
             (λ r' w', httpMux {| req_Method := req_Method r; req_Base := r' |} w')
             (req_Base r) w).1).

(** *** Sample data *)

Definition preflightRequest : MethodRequest :=
  {| req_Method := "OPTIONS"; req_Base := sampleAnonRequest |}.

Definition getRequest : MethodRequest :=
  {| req_Method := "GET"; req_Base := sampleAnonRequest |}.

Definition okMux (r : MethodRequest) (w : ResponseWriter) : ResponseWriter :=
  Write "ok" (WriteHeader 200 w).

End CORS.

(** ** internal/middleware/metadata.go, and the metadata option of main.go *)
Module Annotator.
Import GoStrings HTTP Auth.

(** [md.Set(k, v)] for a lower-case key and one value. *)
Definition MD_Set (k v : string) (md : MD) : MD := <[k := [v]]> md.

(** [MetadataAnnotator] *)
Definition MetadataAnnotator (req : Request) : MD :=
  let md : MD := ∅ in
  let lang := Header_Get (req_Header req) "Accept-Language" in
  let md := if negb (String.eqb lang EmptyString) then MD_Set "x-lang" lang md else md in
  let tz := Header_Get (req_Header req) "X-Timezone" in
  let md := if negb (String.eqb tz EmptyString) then MD_Set "x-timezone" tz md else md in
  md.

(** The function given to [runtime.WithMetadata] in main.go. *)
Definition gatewayMetadata (req : Request) : MD :=
  let md := MetadataAnnotator req in
  let auth := Header_Get (req_Header req) "Authorization" in
  if negb (String.eqb auth EmptyString) then MD_Set "authorization" auth md else md.

(** *** Sample data *)

Definition localizedRequest : Request :=
  {| req_Header := {[ "Accept-Language" := ["id-ID"; "en"];
                      "Authorization" := ["Bearer aaa.bbb.ccc"];
                      "Cookie" := ["session=1"] ]};
     req_RemoteAddr := "10.0.0.9:4711" |}.

End Annotator.

(** ** Vocabulary and sample data of the further properties *)
Module More.
Import GoStrings HTTP RateLimiter JWT Auth Reflection.

(** ASCII white space only. *)
Fixpoint allAsciiSpace (s : string) : bool :=
  match s with
  | EmptyString => true
  | String a r => asciiSpace a && allAsciiSpace r
  end.

(** An ASCII byte that is no white space. *)
Definition plainByte (c : ascii) : bool :=
  N.ltb (N_of_ascii c) 128 && negb (asciiSpace c).

(** The string starts with a plain byte. *)
Definition headPlain (s : string) : bool :=
  match s with
  | String a _ => plainByte a
  | EmptyString => false
  end.

(** A run of calls of [DiscoverPublicEndpoints], each with the registry as
    it is at the time of the call: the maps returned and the cache at the
    end. *)
Fixpoint DiscoverCalls (calls : list (list FileDescriptor))
    (cache : option (gmap string bool))
    : list (gmap string bool) * option (gmap string bool) :=
  match calls with
  | [] => ([], cache)
  | files :: rest =>
      let '(m, cache') := DiscoverPublicEndpoints files cache in
      let '(ms, cache'') := DiscoverCalls rest cache' in
      (m :: ms, cache'')
  end.

(** The messages of the rejections of [Unary]. *)
Definition rejectionMessages : list string :=
  [ "missing authorization header"; "invalid authorization header format";
    "token has expired"; "invalid token" ].

(** A token signed with RSA, one with a bad signature, and a parser that
    knows the three sample tokens. *)
Definition rsaRaw : RawToken :=
  {| raw_Method := SigningMethodRSA;
     raw_Verify := λ key, true;
     raw_Claims := {| MerchantID := "m-2"; ExpiresAt := None;
                      NotBefore := None; IssuedAt := None |} |}.

Definition forgedRaw : RawToken :=
  {| raw_Method := SigningMethodHMAC;
     raw_Verify := λ key, false;
     raw_Claims := {| MerchantID := "m-3"; ExpiresAt := None;
                      NotBefore := None; IssuedAt := None |} |}.

Definition moreParser (tokenString : string) : option RawToken :=
  if String.eqb tokenString "aaa.bbb.ccc" then Some sampleRaw
  else if String.eqb tokenString "rsa.rsa.rsa" then Some rsaRaw
  else if String.eqb tokenString "bad.bad.bad" then Some forgedRaw
  else None.

(** A context as the gateway hands it to the interceptor: no incoming
    metadata, the credential in the outgoing metadata, beside a language
    and a merchant id taken from the request. *)
Definition outgoingContext : Context :=
  {| incoming := None;
     outgoing := Some {[ "grpcgateway-authorization" := ["Bearer aaa.bbb.ccc"];
                         "x-lang" := ["id-ID"];
                         "x-merchant-id" := ["m-9"] ]} |}.

(** Incoming metadata without credential over outgoing metadata with one. *)
Definition maskedContext : Context :=
  {| incoming := Some {[ "x-lang" := ["id-ID"] ]};
     outgoing := Some {[ "authorization" := ["Bearer aaa.bbb.ccc"] ]} |}.

End More.


(** * Properties *)

(** ** Byte strings *)
Module GoStringsFacts.
Import GoStrings.

Lemma append_String (a : ascii) (s t : string) :
  String a s +:+ t = String a (s +:+ t).
Proof. reflexivity. Qed.

Lemma append_Empty (t : string) : EmptyString +:+ t = t.
Proof. reflexivity. Qed.

Lemma StripPrefix_append (p s : string) : StripPrefix p (p +:+ s) = Some s.
Proof.
  induction p as [|a p IH]; [reflexivity|].
  rewrite append_String. simpl. now rewrite Ascii.eqb_refl.
Qed.

Lemma StripPrefix_Some (p s r : string) :
  StripPrefix p s = Some r → s = p +:+ r.
Proof.
  revert s. induction p as [|a p IH]; intros s H.
  - simpl in H. now inversion H.
  - destruct s as [|b s]; [discriminate|]. simpl in H.
    destruct (Ascii.eqb a b) eqn:E; [|discriminate].
    apply Ascii.eqb_eq in E. subst b.
    rewrite append_String. f_equal. now apply IH.
Qed.

Lemma HasPrefix_append (p s : string) : HasPrefix (p +:+ s) p = true.
Proof. unfold HasPrefix. now rewrite StripPrefix_append. Qed.

Lemma TrimPrefix_append (p s : string) : TrimPrefix (p +:+ s) p = s.
Proof. unfold TrimPrefix. now rewrite StripPrefix_append. Qed.

(** The first field of a split holds no separator, and the string is that
    field alone or the field, a separator and the rest. *)
Lemma SplitFirst_spec (c : ascii) (s : string) :
  ContainsByte c (SplitFirst c s) = false
  ∧ (s = SplitFirst c s ∨ ∃ rest, s = SplitFirst c s +:+ String c rest).
Proof.
  induction s as [|a s [IH1 IH2]]; simpl.
  - split; [reflexivity | now left].
  - destruct (Ascii.eqb a c) eqn:E; simpl.
    + apply Ascii.eqb_eq in E. subst a. split; [reflexivity|].
      right. now exists s.
    + rewrite E. split; [exact IH1|].
      destruct IH2 as [IH2 | [rest IH2]].
      * left. now f_equal.
      * right. exists rest. rewrite append_String. now f_equal.
Qed.

Lemma BeforeLast_None (c : ascii) (s : string) :
  BeforeLast c s = None ↔ ContainsByte c s = false.
Proof.
  induction s as [|a s IH]; simpl; [tauto|].
  destruct (BeforeLast c s) eqn:B; destruct (Ascii.eqb a c) eqn:E;
    split; intros H; try discriminate; try reflexivity.
  - apply IH in H. discriminate.
  - now apply IH.
Qed.

(** Cutting at the last separator: what is cut off is the separator and a
    suffix without separator. *)
Lemma BeforeLast_Some (c : ascii) (s p : string) :
  BeforeLast c s = Some p →
  ∃ port, s = p +:+ String c port ∧ ContainsByte c port = false.
Proof.
  revert p. induction s as [|a s IH]; intros p H; simpl in H; [discriminate|].
  destruct (BeforeLast c s) as [p'|] eqn:B.
  - inversion H; subst p. destruct (IH p' eq_refl) as (port & Hs & Hp).
    exists port. split; [|exact Hp]. rewrite append_String. now f_equal.
  - destruct (Ascii.eqb a c) eqn:E; [|discriminate].
    inversion H; subst p. apply Ascii.eqb_eq in E. subst a.
    exists s. split; [reflexivity|]. now apply BeforeLast_None.
Qed.

Lemma append_assoc (s t u : string) : (s +:+ t) +:+ u = s +:+ (t +:+ u).
Proof.
  induction s as [|a s IH]; [reflexivity|].
  rewrite !append_String. now f_equal.
Qed.

Lemma append_Empty_r (s : string) : s +:+ EmptyString = s.
Proof.
  induction s as [|a s IH]; [reflexivity|].
  rewrite append_String. now f_equal.
Qed.

Lemma rev_app_spec (s t : string) : String.rev_app s t = String.rev s +:+ t.
Proof.
  revert t. induction s as [|a s IH]; intros t; [reflexivity|].
  unfold String.rev. simpl. rewrite (IH (String a t)), (IH (String a EmptyString)).
  now rewrite append_assoc.
Qed.

Lemma rev_String (a : ascii) (s : string) :
  String.rev (String a s) = String.rev s +:+ String a EmptyString.
Proof. unfold String.rev at 1. simpl. apply rev_app_spec. Qed.

Lemma rev_append (s t : string) :
  String.rev (s +:+ t) = String.rev t +:+ String.rev s.
Proof.
  induction s as [|a s IH].
  - rewrite append_Empty. now rewrite append_Empty_r.
  - rewrite append_String, !rev_String, IH. apply append_assoc.
Qed.

Lemma rev_involutive (s : string) : String.rev (String.rev s) = s.
Proof.
  induction s as [|a s IH]; [reflexivity|].
  rewrite rev_String, rev_append, IH. reflexivity.
Qed.

(** Trimming on the left removes a prefix, and what is left does not
    start with an ASCII white space byte. *)
Lemma TrimLeftSpace_suffix (s : string) :
  ∃ pre, s = pre +:+ TrimLeftSpace s.
Proof.
  remember (String.length s) as n eqn:Hn. revert s Hn.
  induction n as [n IH] using lt_wf_ind. intros s ->.
  destruct s as [|a r]; [now exists EmptyString|]. simpl.
  destruct (asciiSpace a).
  { destruct (IH (String.length r) ltac:(simpl; lia) r eq_refl) as [pre H].
    exists (String a pre). rewrite append_String. now f_equal. }
  destruct r as [|b r1]; [now exists EmptyString|].
  destruct (space2 a b).
  { destruct (IH (String.length r1) ltac:(simpl; lia) r1 eq_refl) as [pre H].
    exists (String a (String b pre)). rewrite !append_String. now do 2 f_equal. }
  destruct r1 as [|c r2]; [now exists EmptyString|].
  destruct (space3 a b c); [|now exists EmptyString].
  destruct (IH (String.length r2) ltac:(simpl; lia) r2 eq_refl) as [pre H].
  exists (String a (String b (String c pre))). rewrite !append_String. now do 3 f_equal.
Qed.

Lemma TrimLeftSpace_head (s : string) :
  match TrimLeftSpace s with
  | String a _ => asciiSpace a = false
  | EmptyString => True
  end.
Proof.
  remember (String.length s) as n eqn:Hn. revert s Hn.
  induction n as [n IH] using lt_wf_ind. intros s ->.
  destruct s as [|a r]; [exact I|]. simpl.
  destruct (asciiSpace a) eqn:Ea.
  { exact (IH (String.length r) ltac:(simpl; lia) r eq_refl). }
  destruct r as [|b r1]; [exact Ea|].
  destruct (space2 a b).
  { exact (IH (String.length r1) ltac:(simpl; lia) r1 eq_refl). }
  destruct r1 as [|c r2]; [exact Ea|].
  destruct (space3 a b c); [|exact Ea].
  exact (IH (String.length r2) ltac:(simpl; lia) r2 eq_refl).
Qed.

Lemma TrimLeftSpaceRev_suffix (s : string) :
  ∃ pre, s = pre +:+ TrimLeftSpaceRev s.
Proof.
  remember (String.length s) as n eqn:Hn. revert s Hn.
  induction n as [n IH] using lt_wf_ind. intros s ->.
  destruct s as [|a r]; [now exists EmptyString|]. simpl.
  destruct (asciiSpace a).
  { destruct (IH (String.length r) ltac:(simpl; lia) r eq_refl) as [pre H].
    exists (String a pre). rewrite append_String. now f_equal. }
  destruct r as [|b r1]; [now exists EmptyString|].
  destruct (space2 b a).
  { destruct (IH (String.length r1) ltac:(simpl; lia) r1 eq_refl) as [pre H].
    exists (String a (String b pre)). rewrite !append_String. now do 2 f_equal. }
  destruct r1 as [|c r2]; [now exists EmptyString|].
  destruct (space3 c b a); [|now exists EmptyString].
  destruct (IH (String.length r2) ltac:(simpl; lia) r2 eq_refl) as [pre H].
  exists (String a (String b (String c pre))). rewrite !append_String. now do 3 f_equal.
Qed.

(** [TrimSpace] cuts a prefix and a suffix off its argument. *)
Lemma TrimSpace_infix (s : string) :
  ∃ pre post, s = pre +:+ TrimSpace s +:+ post.
Proof.
  destruct (TrimLeftSpace_suffix s) as [pre Hpre].
  destruct (TrimLeftSpaceRev_suffix (String.rev (TrimLeftSpace s))) as [q Hq].
  exists pre, (String.rev q). unfold TrimSpace, TrimRightSpace.
  rewrite <- rev_append, <- Hq, rev_involutive. exact Hpre.
Qed.

Lemma eqb_Empty_false (s : string) : String.eqb s EmptyString = false ↔ s ≠ EmptyString.
Proof. rewrite <- String.eqb_neq. tauto. Qed.

End GoStringsFacts.

(** ** The rate limiter *)
Module RateLimiterSpec.
Import GoStrings GoStringsFacts HTTP RateLimiter.

Lemma Header_Get_Set_eq (h : Header) (key value : string) :
  Header_Get (Header_Set key value h) key = value.
Proof. unfold Header_Get, Header_Set. now rewrite lookup_insert_eq. Qed.

Lemma Header_Get_Set_ne (h : Header) (key key' value : string) :
  CanonicalMIMEHeaderKey key ≠ CanonicalMIMEHeaderKey key' →
  Header_Get (Header_Set key value h) key' = Header_Get h key'.
Proof. intros H. unfold Header_Get, Header_Set. now rewrite lookup_insert_ne. Qed.

Lemma Header_Get_Del_ne (h : Header) (key key' : string) :
  CanonicalMIMEHeaderKey key ≠ CanonicalMIMEHeaderKey key' →
  Header_Get (Header_Del key h) key' = Header_Get h key'.
Proof. intros H. unfold Header_Get, Header_Del. now rewrite lookup_delete_ne. Qed.

Lemma Error_Header_Get (msg : string) (code : Z) (w : ResponseWriter) (key : string) :
  CanonicalMIMEHeaderKey "Content-Length" ≠ CanonicalMIMEHeaderKey key →
  CanonicalMIMEHeaderKey "Content-Type" ≠ CanonicalMIMEHeaderKey key →
  CanonicalMIMEHeaderKey "X-Content-Type-Options" ≠ CanonicalMIMEHeaderKey key →
  Header_Get (rw_Header (HTTP.Error msg code w)) key = Header_Get (rw_Header w) key.
Proof.
  intros H1 H2 H3.
  assert (rw_Header (HTTP.Error msg code w)
          = Header_Set "X-Content-Type-Options" "nosniff"
              (Header_Set "Content-Type" "text/plain; charset=utf-8"
                 (Header_Del "Content-Length" (rw_Header w)))) as ->.
  { unfold HTTP.Error, Write, WriteHeader. simpl.
    destruct (rw_Status w) eqn:E; simpl; rewrite ?E; reflexivity. }
  rewrite (Header_Get_Set_ne _ _ _ _ H3), (Header_Get_Set_ne _ _ _ _ H2).
  exact (Header_Get_Del_ne _ _ _ H1).
Qed.

Lemma Error_Status (msg : string) (code : Z) (w : ResponseWriter) :
  rw_Status w = None → rw_Status (HTTP.Error msg code w) = Some code.
Proof. intros H. unfold HTTP.Error, Write, WriteHeader. simpl. now rewrite H. Qed.

Lemma Error_Body (msg : string) (code : Z) (w : ResponseWriter) :
  rw_Body (HTTP.Error msg code w) = rw_Body w +:+ msg +:+ newline.
Proof.
  unfold HTTP.Error, Write, WriteHeader. simpl.
  destruct (rw_Status w) eqn:E; simpl; rewrite ?E; reflexivity.
Qed.

Lemma getClientIP_fallback (r : Request) :
  Header_Get (req_Header r) "X-Forwarded-For" = EmptyString →
  Header_Get (req_Header r) "X-Real-IP" = EmptyString →
  getClientIP r = stripPort (req_RemoteAddr r).
Proof.
  intros H1 H2. unfold stripPort, getClientIP. rewrite H1, H2. reflexivity.
Qed.

Lemma stripPort_no_colon (addr : string) :
  ContainsByte colon addr = false → stripPort addr = addr.
Proof. intros H. unfold stripPort, getClientIP. simpl. now rewrite H. Qed.

Lemma stripPort_colon (addr : string) :
  ContainsByte colon addr = true →
  ∃ port, addr = stripPort addr +:+ String colon port
          ∧ ContainsByte colon port = false.
Proof.
  intros H. unfold stripPort, getClientIP. simpl. rewrite H.
  destruct (BeforeLast colon addr) as [p|] eqn:B.
  - now apply BeforeLast_Some.
  - apply BeforeLast_None in B. congruence.
Qed.

(** The two key name spaces are disjoint. *)
Lemma auth_key_ne_ip_key (x y : string) :
  "rate_limit:auth:" +:+ x ≠ "rate_limit:ip:" +:+ y.
Proof. intros H. vm_compute in H. discriminate H. Qed.

(** C4, as stated, fails: the key of a request with a credential does not
    start with "rate:auth:". *)
Lemma getLimit_key_not_rate_auth :
  (getLimit sampleConfig sampleAuthRequest).1
  ≠ "rate:auth:" +:+ Header_Get (req_Header sampleAuthRequest) "Authorization".
Proof. vm_compute. discriminate. Qed.

(** C4, amended. A request whose Authorization header has a non-empty
    value gets the key "rate_limit:auth:" followed by that raw value and
    the authenticated tier (AuthRPS, AuthBurst, one second); any other
    request gets "rate_limit:ip:" followed by the resolved client address
    and the anonymous tier (PublicRPS, PublicBurst, one second); a key of
    the first kind never equals a key of the second. *)
Theorem getLimit_key_and_tier (cfg : RateLimitConfig) (r : Request) :
  let auth := Header_Get (req_Header r) "Authorization" in
  (auth ≠ EmptyString →
     getLimit cfg r
     = ("rate_limit:auth:" +:+ auth,
        {| Rate := AuthRPS cfg; Burst := AuthBurst cfg; Period := Second |}))
  ∧ (auth = EmptyString →
     getLimit cfg r
     = ("rate_limit:ip:" +:+ getClientIP r,
        {| Rate := PublicRPS cfg; Burst := PublicBurst cfg; Period := Second |}))
  ∧ (∀ (cfg' : RateLimitConfig) (r' : Request),
       auth ≠ EmptyString →
       Header_Get (req_Header r') "Authorization" = EmptyString →
       (getLimit cfg r).1 ≠ (getLimit cfg' r').1).
Proof.
  intros auth. unfold getLimit. fold auth.
  split; [|split].
  - intros H. apply eqb_Empty_false in H. now rewrite H.
  - intros H. rewrite H. reflexivity.
  - intros cfg' r' H H'. rewrite H'. apply eqb_Empty_false in H. rewrite H.
    simpl. apply auth_key_ne_ip_key.
Qed.

(** C5, as stated, fails: the test is on the forwarded-for header, not on
    its first field. When the header is not empty but its first field is,
    the address is the empty string: X-Real-IP, although set, is not
    consulted, nor is the peer address. *)
Lemma getClientIP_empty_first_field :
  Header_Get (req_Header emptyFirstHopRequest) "X-Forwarded-For" = ", 10.0.0.1"
  ∧ TrimSpace (SplitFirst comma
                 (Header_Get (req_Header emptyFirstHopRequest) "X-Forwarded-For"))
    = EmptyString
  ∧ Header_Get (req_Header emptyFirstHopRequest) "X-Real-IP" = "198.51.100.4"
  ∧ getClientIP emptyFirstHopRequest = EmptyString
  ∧ getClientIP emptyFirstHopRequest ≠ "198.51.100.4"
  ∧ (getLimit sampleConfig emptyFirstHopRequest).1 = "rate_limit:ip:".
Proof.
  repeat split; try (vm_compute; reflexivity). vm_compute. discriminate.
Qed.

(** C5, amended. The client address of [getClientIP]: when the value of
    X-Forwarded-For is not empty, its first comma-separated field, trimmed,
    also when that field is empty; when the value is empty, the value of
    X-Real-IP if that is not empty; else the peer address cut at its last
    colon, or unchanged when it has no colon. For a request without
    credential this address is what follows "rate_limit:ip:" in the key. *)
Theorem getClientIP_resolution_order (cfg : RateLimitConfig) (r : Request) :
  let xff := Header_Get (req_Header r) "X-Forwarded-For" in
  let xrp := Header_Get (req_Header r) "X-Real-IP" in
  let addr := req_RemoteAddr r in
  (xff ≠ EmptyString →
     getClientIP r = TrimSpace (SplitFirst comma xff)
     ∧ ContainsByte comma (SplitFirst comma xff) = false
     ∧ (xff = SplitFirst comma xff
        ∨ ∃ rest, xff = SplitFirst comma xff +:+ String comma rest))
  ∧ (xff = EmptyString → xrp ≠ EmptyString → getClientIP r = xrp)
  ∧ (xff = EmptyString → xrp = EmptyString →
       (ContainsByte colon addr = false → getClientIP r = addr)
       ∧ (ContainsByte colon addr = true →
            ∃ port, addr = getClientIP r +:+ String colon port
                    ∧ ContainsByte colon port = false))
  ∧ (Header_Get (req_Header r) "Authorization" = EmptyString →
       (getLimit cfg r).1 = "rate_limit:ip:" +:+ getClientIP r).
Proof.
  intros xff xrp addr. split; [|split; [|split]].
  - intros H. split; [|apply SplitFirst_spec].
    unfold getClientIP. fold xff. apply eqb_Empty_false in H. now rewrite H.
  - intros H1 H2. unfold getClientIP. fold xff xrp. rewrite H1. simpl.
    apply eqb_Empty_false in H2. now rewrite H2.
  - intros H1 H2. rewrite (getClientIP_fallback r H1 H2). fold addr. split.
    + apply stripPort_no_colon.
    + apply stripPort_colon.
  - intros H. unfold getLimit. rewrite H. reflexivity.
Qed.

Section WithStore.
Variable Allow : string → redis_Limit → redis_Result + string.

(** The answer to a denied request. *)
Lemma Limit_denied (cfg : RateLimitConfig) (next : Handler)
    (r : Request) (w : ResponseWriter) (res : redis_Result) :
  Enabled cfg = true →
  Allow (getLimit cfg r).1 (getLimit cfg r).2 = inl res →
  Allowed res = 0 →
  ∃ w4, Limit Allow cfg next r w
        = (HTTP.Error "Too Many Requests" StatusTooManyRequests w4, [])
        ∧ rw_Status w4 = rw_Status w ∧ rw_Body w4 = rw_Body w.
Proof.
  intros He Ha Hz. unfold Limit. rewrite He. cbn [negb].
  destruct (getLimit cfg r) as [key limit]. cbn [fst snd] in Ha. rewrite Ha, Hz.
  cbn [Z.eqb]. eexists. split; [reflexivity|]. split; reflexivity.
Qed.

(** C3. With the limiter enabled, when the counter store answers with an
    error the handler logs it and hands the request and the untouched
    response writer to the next handler: whatever the counters were, the
    request is forwarded, nothing is rejected and the limiter sets no
    header. *)
Theorem Limit_fails_open (cfg : RateLimitConfig) (next : Handler)
    (r : Request) (w : ResponseWriter) (err : string) :
  Enabled cfg = true →
  Allow (getLimit cfg r).1 (getLimit cfg r).2 = inr err →
  Limit Allow cfg next r w = (next r w, [LogError "rate limit error" err]).
Proof.
  intros He Ha. unfold Limit. rewrite He. simpl.
  destruct (getLimit cfg r) as [key limit]. simpl in Ha. now rewrite Ha.
Qed.

Lemma withLimitHeaders_Get (limit : redis_Limit) (res : redis_Result) (w : ResponseWriter) :
  let h := rw_Header (withLimitHeaders limit res w) in
  Header_Get h "X-RateLimit-Limit" = FormatInt (Rate limit)
  ∧ Header_Get h "X-RateLimit-Remaining" = FormatInt (Remaining res)
  ∧ Header_Get h "X-RateLimit-Reset" = FormatInt (Z.quot (ResetAfter res) Millisecond).
Proof.
  simpl. repeat split.
  - rewrite !Header_Get_Set_ne by (vm_compute; discriminate).
    apply Header_Get_Set_eq.
  - rewrite Header_Get_Set_ne by (vm_compute; discriminate).
    apply Header_Get_Set_eq.
  - apply Header_Get_Set_eq.
Qed.

(** C6. With the limiter enabled and an answer from the counter store, the
    limiter sets X-RateLimit-Limit, X-RateLimit-Remaining and
    X-RateLimit-Reset (the reset in milliseconds); an allowed request goes
    to the next handler with these headers set; a denied one gets
    Retry-After in whole seconds besides, is answered with status 429 and
    is not forwarded: the answer is the same whatever the next handler. *)
Theorem Limit_headers (cfg : RateLimitConfig) (next : Handler)
    (r : Request) (w : ResponseWriter) (res : redis_Result) :
  Enabled cfg = true →
  Allow (getLimit cfg r).1 (getLimit cfg r).2 = inl res →
  let limit := (getLimit cfg r).2 in
  let w3 := withLimitHeaders limit res w in
  let out := (Limit Allow cfg next r w).1 in
  Header_Get (rw_Header w3) "X-RateLimit-Limit" = FormatInt (Rate limit)
  ∧ Header_Get (rw_Header w3) "X-RateLimit-Remaining" = FormatInt (Remaining res)
  ∧ Header_Get (rw_Header w3) "X-RateLimit-Reset"
    = FormatInt (Z.quot (ResetAfter res) Millisecond)
  ∧ (Allowed res ≠ 0 → out = next r w3)
  ∧ (Allowed res = 0 →
       (∀ next' : Handler, Limit Allow cfg next' r w = Limit Allow cfg next r w)
       ∧ Header_Get (rw_Header out) "X-RateLimit-Limit" = FormatInt (Rate limit)
       ∧ Header_Get (rw_Header out) "X-RateLimit-Remaining" = FormatInt (Remaining res)
       ∧ Header_Get (rw_Header out) "X-RateLimit-Reset"
         = FormatInt (Z.quot (ResetAfter res) Millisecond)
       ∧ Header_Get (rw_Header out) "Retry-After"
         = FormatInt (Z.quot (RetryAfter res) Second)
       ∧ (rw_Status w = None → rw_Status out = Some 429)
       ∧ rw_Body out = rw_Body w +:+ "Too Many Requests" +:+ newline).
Proof.
  intros He Ha limit w3 out.
  destruct (withLimitHeaders_Get limit res w) as (H1 & H2 & H3).
  split; [exact H1|]. split; [exact H2|]. split; [exact H3|].
  subst out. unfold Limit. rewrite He. simpl.
  destruct (getLimit cfg r) as [key lim] eqn:G. simpl in *. subst limit.
  rewrite Ha. fold (withLimitHeaders lim res w). fold w3.
  split.
  - intros Hn. apply Z.eqb_neq in Hn. now rewrite Hn.
  - intros Hz. rewrite Hz. cbn [Z.eqb fst]. split; [reflexivity|].
    set (w4 := setHeader "Retry-After" _ w3).
    assert (∀ k, CanonicalMIMEHeaderKey "Retry-After" ≠ CanonicalMIMEHeaderKey k →
                 Header_Get (rw_Header w4) k = Header_Get (rw_Header w3) k) as Hk.
    { intros k Hne. now apply Header_Get_Set_ne. }
    repeat split.
    + rewrite Error_Header_Get by (vm_compute; discriminate).
      rewrite Hk by (vm_compute; discriminate). exact H1.
    + rewrite Error_Header_Get by (vm_compute; discriminate).
      rewrite Hk by (vm_compute; discriminate). exact H2.
    + rewrite Error_Header_Get by (vm_compute; discriminate).
      rewrite Hk by (vm_compute; discriminate). exact H3.
    + rewrite Error_Header_Get by (vm_compute; discriminate).
      apply Header_Get_Set_eq.
    + intros Hs. now apply Error_Status.
    + now rewrite Error_Body.
Qed.

End WithStore.

Lemma getLimit_key_and_tier_witness :
  getLimit sampleConfig sampleAuthRequest
  = ("rate_limit:auth:Bearer abc",
     {| Rate := 100; Burst := 200; Period := Second |})
  ∧ getLimit sampleConfig sampleAnonRequest
    = ("rate_limit:ip:203.0.113.7",
       {| Rate := 10; Burst := 20; Period := Second |}).
Proof.
  split.
  - destruct (getLimit_key_and_tier sampleConfig sampleAuthRequest) as [H _].
    apply H. vm_compute. discriminate.
  - destruct (getLimit_key_and_tier sampleConfig sampleAnonRequest) as (_ & H & _).
    rewrite H by reflexivity. vm_compute. reflexivity.
Defined.

Lemma getClientIP_resolution_order_witness :
  getClientIP sampleAnonRequest = "203.0.113.7"
  ∧ getClientIP {| req_Header := {[ "X-Real-Ip" := ["198.51.100.4"] ]};
                   req_RemoteAddr := "10.0.0.9:4711" |} = "198.51.100.4"
  ∧ ∃ port, "[::1]:8080"
            = getClientIP {| req_Header := ∅; req_RemoteAddr := "[::1]:8080" |}
              +:+ String colon port
            ∧ ContainsByte colon port = false.
Proof.
  split; [|split].
  - destruct (getClientIP_resolution_order sampleConfig sampleAnonRequest) as [H _].
    destruct H as [H _]; [vm_compute; discriminate|].
    rewrite H. vm_compute. reflexivity.
  - destruct (getClientIP_resolution_order sampleConfig
                {| req_Header := {[ "X-Real-Ip" := ["198.51.100.4"] ]};
                   req_RemoteAddr := "10.0.0.9:4711" |}) as (_ & H & _).
    rewrite H; [reflexivity|reflexivity|vm_compute; discriminate].
  - destruct (getClientIP_resolution_order sampleConfig
                {| req_Header := ∅; req_RemoteAddr := "[::1]:8080" |})
      as (_ & _ & H & _).
    destruct (H eq_refl eq_refl) as [_ H2]. apply H2. reflexivity.
Defined.

Lemma Limit_fails_open_witness :
  Limit storeDown sampleConfig okHandler sampleAnonRequest emptyResponse
  = (okHandler sampleAnonRequest emptyResponse,
     [LogError "rate limit error" "dial tcp: connection refused"]).
Proof.
  apply (Limit_fails_open storeDown sampleConfig okHandler sampleAnonRequest
           emptyResponse "dial tcp: connection refused"); reflexivity.
Defined.

Lemma Limit_headers_witness :
  let out := (Limit storeDenies sampleConfig okHandler sampleAnonRequest emptyResponse).1 in
  Header_Get (rw_Header out) "Retry-After" = "2"
  ∧ Header_Get (rw_Header out) "X-RateLimit-Reset" = "2500"
  ∧ rw_Status out = Some 429
  ∧ (Limit storeAllows sampleConfig okHandler sampleAuthRequest emptyResponse).1
    = okHandler sampleAuthRequest
        (withLimitHeaders {| Rate := 100; Burst := 200; Period := Second |}
           {| Allowed := 1; Remaining := 99; RetryAfter := -1; ResetAfter := 10000000 |}
           emptyResponse).
Proof.
  pose proof (Limit_headers storeDenies sampleConfig okHandler sampleAnonRequest
                emptyResponse
                {| Allowed := 0; Remaining := 0; RetryAfter := 2500000000;
                   ResetAfter := 2500000000 |} eq_refl eq_refl) as H.
  cbv zeta in H. destruct H as (_ & _ & _ & _ & H).
  destruct (H eq_refl) as (_ & _ & _ & H3 & H4 & H5 & _).
  split; [exact H4|]. split; [exact H3|]. split; [exact (H5 eq_refl)|].
  pose proof (Limit_headers storeAllows sampleConfig okHandler sampleAuthRequest
                emptyResponse
                {| Allowed := 1; Remaining := 99; RetryAfter := -1;
                   ResetAfter := 10000000 |} eq_refl eq_refl) as H'.
  cbv zeta in H'. destruct H' as (_ & _ & _ & Ha & _).
  apply Ha. discriminate.
Defined.

End RateLimiterSpec.

(** ** The credential validator and the auth interceptor *)
Module AuthSpec.
Import GoStrings GoStringsFacts JWT Auth.

Lemma isPublic_true_iff (a : AuthInterceptor) (method : string) :
  isPublic a method = true ↔ publicEndpoints a !! method = Some true.
Proof.
  unfold isPublic. destruct (publicEndpoints a !! method) as [[|]|]; split; congruence.
Qed.

Lemma len_MD_lookup (md : MD) (k : string) (vs : list string) :
  md !! k = Some vs → Nat.eqb (len_MD md) 0 = false.
Proof.
  intros H. apply Nat.eqb_neq. unfold len_MD. intros Hs.
  apply map_size_empty_iff in Hs. subst md. now rewrite lookup_empty in H.
Qed.

(** The steps of [Unary] up to the call of the validator, for a call to a
    protected endpoint whose metadata carries "Bearer <token>". *)
Ltac unary_bearer Hpub Hmd Hauth :=
  unfold Unary; rewrite Hpub, Hmd; rewrite (len_MD_lookup _ _ _ Hauth);
  cbn [negb orb]; unfold authorizationValues, MD_Get; rewrite Hauth;
  cbn [length Nat.eqb]; rewrite HasPrefix_append, TrimPrefix_append;
  cbn [negb].

Section WithParser.
Variable ParseUnverified : string → option RawToken.

(** X12. A token the library accepts at [now_parse] is reported as expired by
    line 53 only when its expiry lies between the two clock readings. *)
Lemma ValidateToken_ErrExpiredToken (h : JWTHelper) (now_parse now_check : Z) (tok : string) :
  ValidateToken ParseUnverified h now_parse now_check tok = inr ErrExpiredToken →
  ∃ raw e, ParseUnverified tok = Some raw
           ∧ ExpiresAt (raw_Claims raw) = Some e
           ∧ now_parse < e < now_check.
Proof.
  unfold ValidateToken, ParseWithClaims, Validate, verifyExpiresAt.
  destruct (ParseUnverified tok) as [raw|]; [|discriminate].
  destruct (keyFunc h (raw_Method raw)); [|discriminate].
  destruct (negb (raw_Verify raw s)); [discriminate|].
  destruct (ExpiresAt (raw_Claims raw)) as [e|] eqn:E.
  - destruct (Z.ltb_spec now_parse e) as [Hlt|Hge]; [|discriminate].
    destruct (verifyNotBefore (raw_Claims raw) now_parse); [|discriminate].
    simpl. rewrite E. destruct (Z.ltb_spec e now_check); [|discriminate].
    intros _. exists raw, e. repeat split; auto.
  - destruct (verifyNotBefore (raw_Claims raw) now_parse); [|discriminate].
    simpl. rewrite E. discriminate.
Qed.

(** A token with a valid HMAC signature whose expiry is not after the
    clock is refused by the parser, with the library's error. *)
Lemma ValidateToken_expired (h : JWTHelper) (now_parse now_check : Z)
    (tok : string) (raw : RawToken) (e : Z) :
  ParseUnverified tok = Some raw →
  raw_Method raw = SigningMethodHMAC →
  raw_Verify raw (secretKey h) = true →
  ExpiresAt (raw_Claims raw) = Some e →
  e <= now_parse →
  ValidateToken ParseUnverified h now_parse now_check tok
  = inr (ErrTokenInvalidClaims
           (ErrTokenExpired :: verifyNotBefore (raw_Claims raw) now_parse)).
Proof.
  intros Hp Hm Hv He Hlt. unfold ValidateToken, ParseWithClaims, Validate, verifyExpiresAt.
  rewrite Hp, Hm. simpl. rewrite Hv, He. simpl.
  destruct (Z.ltb_spec now_parse e); [lia|reflexivity].
Qed.

Section WithInvoker.
Variable invoker : Context → string → option Status.
Variables now_parse now_check : Z.

(** C1, on the code. For a call to an endpoint that is not public, with
    the header "Bearer <token>" where the token has a valid HMAC signature
    and an expiry in the past: validation fails with the library's expiry
    error, not with [ErrExpiredToken], and the interceptor rejects with
    the message "invalid token", without calling the invoker. *)
Theorem Unary_expired_token_reported_invalid (a : AuthInterceptor) (ctx : Context)
    (method : string) (md : MD) (tok : string) (rest : list string)
    (raw : RawToken) (e : Z) :
  isPublic a method = false →
  requestMetadata ctx = (md, true) →
  md !! "authorization" = Some (("Bearer " +:+ tok) :: rest) →
  ParseUnverified tok = Some raw →
  raw_Method raw = SigningMethodHMAC →
  raw_Verify raw (secretKey (jwtHelper a)) = true →
  ExpiresAt (raw_Claims raw) = Some e →
  e < now_parse →
  ValidateToken ParseUnverified (jwtHelper a) now_parse now_check tok
  = inr (ErrTokenInvalidClaims
           (ErrTokenExpired :: verifyNotBefore (raw_Claims raw) now_parse))
  ∧ Unary ParseUnverified invoker now_parse now_check a ctx method
    = ([], Some (status_Error Unauthenticated "invalid token")).
Proof.
  intros Hpub Hmd Hauth Hp Hm Hv He Hlt.
  assert (ValidateToken ParseUnverified (jwtHelper a) now_parse now_check tok
          = inr (ErrTokenInvalidClaims
                   (ErrTokenExpired :: verifyNotBefore (raw_Claims raw) now_parse))) as HV.
  { apply (ValidateToken_expired _ _ _ _ raw e); auto. lia. }
  split; [exact HV|].
  unary_bearer Hpub Hmd Hauth. unfold ExtractMerchantID. rewrite HV. reflexivity.
Qed.

(** X13. The message "token has expired" is produced exactly on the path of
    line 53: for a token the parser accepted whose expiry has passed at the
    second clock reading. *)
Lemma Unary_expiry_between_readings (a : AuthInterceptor) (ctx : Context)
    (method : string) (md : MD) (tok : string) (rest : list string)
    (raw : RawToken) (e : Z) :
  isPublic a method = false →
  requestMetadata ctx = (md, true) →
  md !! "authorization" = Some (("Bearer " +:+ tok) :: rest) →
  ParseUnverified tok = Some raw →
  raw_Method raw = SigningMethodHMAC →
  raw_Verify raw (secretKey (jwtHelper a)) = true →
  ExpiresAt (raw_Claims raw) = Some e →
  NotBefore (raw_Claims raw) = None →
  now_parse < e < now_check →
  Unary ParseUnverified invoker now_parse now_check a ctx method
  = ([], Some (status_Error Unauthenticated "token has expired")).
Proof.
  intros Hpub Hmd Hauth Hp Hm Hv He Hn [Hlt1 Hlt2].
  unary_bearer Hpub Hmd Hauth. unfold ExtractMerchantID, ValidateToken, ParseWithClaims, Validate,
    verifyExpiresAt, verifyNotBefore.
  rewrite Hp, Hm. simpl. rewrite Hv, He, Hn. simpl.
  destruct (Z.ltb_spec now_parse e); [|lia]. simpl. rewrite He.
  destruct (Z.ltb_spec e now_check); [reflexivity|lia].
Qed.

(** A valid token: the call goes to the invoker with the merchant id
    joined to the outgoing metadata. *)
Lemma Unary_valid_token (a : AuthInterceptor) (ctx : Context)
    (method : string) (md : MD) (tok : string) (rest : list string)
    (raw : RawToken) :
  isPublic a method = false →
  requestMetadata ctx = (md, true) →
  md !! "authorization" = Some (("Bearer " +:+ tok) :: rest) →
  ParseUnverified tok = Some raw →
  raw_Method raw = SigningMethodHMAC →
  raw_Verify raw (secretKey (jwtHelper a)) = true →
  ExpiresAt (raw_Claims raw) = None →
  NotBefore (raw_Claims raw) = None →
  let merchantMD := Pairs "x-merchant-id" (MerchantID (raw_Claims raw)) in
  let ctx' := NewOutgoingContext ctx
                match outgoing ctx with
                | Some existingMD => Join existingMD merchantMD
                | None => merchantMD
                end in
  Unary ParseUnverified invoker now_parse now_check a ctx method
  = ([(ctx', method)], invoker ctx' method).
Proof.
  intros Hpub Hmd Hauth Hp Hm Hv He Hn.
  unary_bearer Hpub Hmd Hauth. unfold ExtractMerchantID, ValidateToken, ParseWithClaims, Validate,
    verifyExpiresAt, verifyNotBefore.
  rewrite Hp, Hm. simpl. rewrite Hv, He, Hn. simpl. rewrite He.
  unfold FromOutgoingContext. now destruct (outgoing ctx).
Qed.

(** C7, amended. A call to a public endpoint is handed to the invoker
    with its context unchanged, whatever it carries. A call to any other
    endpoint is rejected as unauthenticated without calling the invoker:
    with the message "missing authorization header" when the metadata is
    missing or empty or holds no authorization value, and with "invalid
    authorization header format" when the first authorization value does
    not start with "Bearer ". *)
Theorem Unary_requires_bearer (a : AuthInterceptor) (ctx : Context) (method : string) :
  (isPublic a method = true →
     Unary ParseUnverified invoker now_parse now_check a ctx method
     = ([(ctx, method)], invoker ctx method))
  ∧ (isPublic a method = false →
       let md := (requestMetadata ctx).1 in
       let ok := (requestMetadata ctx).2 in
       ((ok = false ∨ len_MD md = 0%nat ∨ authorizationValues md = []) →
          Unary ParseUnverified invoker now_parse now_check a ctx method
          = ([], Some (status_Error Unauthenticated "missing authorization header")))
       ∧ (∀ (authHeader : string) (rest : list string),
            ok = true → len_MD md ≠ 0%nat →
            authorizationValues md = authHeader :: rest →
            HasPrefix authHeader "Bearer " = false →
            Unary ParseUnverified invoker now_parse now_check a ctx method
            = ([], Some (status_Error Unauthenticated
                           "invalid authorization header format")))).
Proof.
  split.
  - intros H. unfold Unary. now rewrite H.
  - intros H md ok. subst md ok. unfold Unary. rewrite H.
    destruct (requestMetadata ctx) as [md ok]. simpl. split.
    + intros [Hok | [Hlen | Hnil]].
      * now rewrite Hok.
      * rewrite Hlen. simpl. now rewrite orb_true_r.
      * destruct (negb ok || Nat.eqb (len_MD md) 0); [reflexivity|].
        now rewrite Hnil.
    + intros authHeader rest Hok Hlen Hvals Hpre.
      rewrite Hok. apply Nat.eqb_neq in Hlen. rewrite Hlen. simpl.
      rewrite Hvals, Hpre. reflexivity.
Qed.

End WithInvoker.
End WithParser.

(** At time 2000 the sample token, expired since 1000, is answered with
    "invalid token". *)
Lemma Unary_expired_token_witness :
  ValidateToken sampleParser (jwtHelper sampleInterceptor) 2000 2000 "aaa.bbb.ccc"
  = inr (ErrTokenInvalidClaims [ErrTokenExpired])
  ∧ Unary sampleParser sampleInvoker 2000 2000 sampleInterceptor sampleContext
      "/user.v1.MerchantService/GetMerchant"
    = ([], Some (status_Error Unauthenticated "invalid token")).
Proof.
  apply (Unary_expired_token_reported_invalid sampleParser sampleInvoker 2000 2000
           sampleInterceptor sampleContext "/user.v1.MerchantService/GetMerchant"
           {[ "authorization" := ["Bearer aaa.bbb.ccc"] ]} "aaa.bbb.ccc" []
           sampleRaw 1000); reflexivity.
Defined.

Lemma Unary_requires_bearer_witness :
  Unary sampleParser sampleInvoker 2000 2000 sampleInterceptor basicContext
    "/user.v1.MerchantService/GetMerchant"
  = ([], Some (status_Error Unauthenticated "invalid authorization header format"))
  ∧ Unary sampleParser sampleInvoker 2000 2000 sampleInterceptor emptyContext
      "/user.v1.MerchantService/GetMerchant"
    = ([], Some (status_Error Unauthenticated "missing authorization header"))
  ∧ Unary sampleParser sampleInvoker 2000 2000 sampleInterceptor emptyContext
      "/user.v1.MerchantService/LoginMerchant"
    = ([(emptyContext, "/user.v1.MerchantService/LoginMerchant")], None).
Proof.
  split; [|split].
  - destruct (Unary_requires_bearer sampleParser sampleInvoker 2000 2000
                sampleInterceptor basicContext "/user.v1.MerchantService/GetMerchant")
      as [_ H].
    destruct (H eq_refl) as [_ H2].
    apply (H2 "Basic dXNlcjpwdw==" []); [reflexivity|vm_compute; lia|reflexivity|reflexivity].
  - destruct (Unary_requires_bearer sampleParser sampleInvoker 2000 2000
                sampleInterceptor emptyContext "/user.v1.MerchantService/GetMerchant")
      as [_ H].
    destruct (H eq_refl) as [H1 _]. apply H1. now left.
  - destruct (Unary_requires_bearer sampleParser sampleInvoker 2000 2000
                sampleInterceptor emptyContext "/user.v1.MerchantService/LoginMerchant")
      as [H _].
    apply H. reflexivity.
Defined.

(** C7, as stated, fails: without any metadata the message is not
    "missing authorization". *)
Lemma Unary_missing_message :
  Unary sampleParser sampleInvoker 2000 2000 sampleInterceptor emptyContext
    "/user.v1.MerchantService/GetMerchant"
  ≠ ([], Some (status_Error Unauthenticated "missing authorization")).
Proof. vm_compute. discriminate. Qed.

End AuthSpec.

(** ** Public endpoint discovery *)
Module ReflectionSpec.
Import Reflection.

(** [isPublicEndpoint] holds exactly for a method whose options are
    present and carry the extension with the bool value [true]. *)
Lemma isPublicEndpoint_true_iff (method : MethodDescriptor) :
  isPublicEndpoint method = true
  ↔ ∃ opts, md_Options method = Some opts
            ∧ E_PublicEndpoint opts = Some (ExtBool true).
Proof.
  unfold isPublicEndpoint. split.
  - destruct (md_Options method) as [opts|]; [|discriminate].
    destruct (E_PublicEndpoint opts) as [[[|]|]|] eqn:E; try discriminate.
    intros _. now exists opts.
  - intros (opts & -> & ->). reflexivity.
Qed.

Lemma scanMethods_lookup (service : ServiceDescriptor) (acc : gmap string bool) (key : string) :
  scanMethods service acc !! key = Some true
  ↔ acc !! key = Some true
    ∨ ∃ method, method ∈ sd_Methods service
                ∧ isPublicEndpoint method = true
                ∧ key = fullMethodName service method.
Proof.
  unfold scanMethods. generalize (sd_Methods service) as ms. intros ms.
  revert acc. induction ms as [|m ms IH]; intros acc; simpl.
  - split; [now left|]. intros [H | (m & Hm & _)]; [exact H|].
    now apply elem_of_nil in Hm.
  - rewrite IH. split.
    + intros [H | (m' & Hin & Hp & Hk)].
      * destruct (isPublicEndpoint m) eqn:Hp; [|now left].
        destruct (decide (fullMethodName service m = key)) as [<-|Hne].
        -- right. exists m. split; [apply elem_of_cons; now left|]. now split.
        -- rewrite lookup_insert_ne in H by exact Hne. now left.
      * right. exists m'. split; [apply elem_of_cons; now right|]. now split.
    + intros [H | (m' & Hin & Hp & Hk)].
      * left. destruct (isPublicEndpoint m); [|exact H].
        destruct (decide (fullMethodName service m = key)) as [<-|Hne].
        -- apply lookup_insert_eq.
        -- now rewrite lookup_insert_ne by exact Hne.
      * apply elem_of_cons in Hin as [-> | Hin].
        -- left. rewrite Hp, Hk. apply lookup_insert_eq.
        -- right. exists m'. now repeat split.
Qed.

Lemma scanMethods_allTrue (service : ServiceDescriptor) (acc : gmap string bool) :
  allTrue acc → allTrue (scanMethods service acc).
Proof.
  unfold scanMethods. generalize (sd_Methods service) as ms. intros ms.
  revert acc. induction ms as [|m ms IH]; intros acc Hacc; simpl; [exact Hacc|].
  apply IH. destruct (isPublicEndpoint m); [|exact Hacc].
  intros k b. destruct (decide (fullMethodName service m = k)) as [<-|Hne].
  - rewrite lookup_insert_eq. congruence.
  - rewrite lookup_insert_ne by exact Hne. apply Hacc.
Qed.

Lemma scanFile_lookup (fd : FileDescriptor) (acc : gmap string bool) (key : string) :
  scanFile acc fd !! key = Some true
  ↔ acc !! key = Some true
    ∨ ∃ service method, service ∈ fd_Services fd
                        ∧ method ∈ sd_Methods service
                        ∧ isPublicEndpoint method = true
                        ∧ key = fullMethodName service method.
Proof.
  unfold scanFile. generalize (fd_Services fd) as ss. intros ss.
  revert acc. induction ss as [|s ss IH]; intros acc; simpl.
  - split; [now left|]. intros [H | (s & m & Hs & _)]; [exact H|].
    now apply elem_of_nil in Hs.
  - rewrite IH, scanMethods_lookup. split.
    + intros [[H | (m & Hm & Hp & Hk)] | (s' & m & Hs & Hm & Hp & Hk)].
      * now left.
      * right. exists s, m. split; [apply elem_of_cons; now left|]. now repeat split.
      * right. exists s', m. split; [apply elem_of_cons; now right|]. now repeat split.
    + intros [H | (s' & m & Hs & Hm & Hp & Hk)].
      * left. now left.
      * apply elem_of_cons in Hs as [-> | Hs].
        -- left. right. exists m. now repeat split.
        -- right. exists s', m. now repeat split.
Qed.

Lemma scanFile_allTrue (fd : FileDescriptor) (acc : gmap string bool) :
  allTrue acc → allTrue (scanFile acc fd).
Proof.
  unfold scanFile. generalize (fd_Services fd) as ss. intros ss.
  revert acc. induction ss as [|s ss IH]; intros acc Hacc; simpl; [exact Hacc|].
  apply IH. now apply scanMethods_allTrue.
Qed.

Lemma foldl_scanFile_lookup (files : list FileDescriptor) (acc : gmap string bool) (key : string) :
  foldl scanFile acc files !! key = Some true
  ↔ acc !! key = Some true
    ∨ ∃ fd service method, fd ∈ files
                           ∧ service ∈ fd_Services fd
                           ∧ method ∈ sd_Methods service
                           ∧ isPublicEndpoint method = true
                           ∧ key = fullMethodName service method.
Proof.
  revert acc. induction files as [|fd files IH]; intros acc; simpl.
  - split; [now left|]. intros [H | (fd & s & m & Hf & _)]; [exact H|].
    now apply elem_of_nil in Hf.
  - rewrite IH, scanFile_lookup. split.
    + intros [[H | (s & m & Hs & Hm & Hp & Hk)] | (fd' & s & m & Hf & Hs & Hm & Hp & Hk)].
      * now left.
      * right. exists fd, s, m. split; [apply elem_of_cons; now left|]. now repeat split.
      * right. exists fd', s, m. split; [apply elem_of_cons; now right|]. now repeat split.
    + intros [H | (fd' & s & m & Hf & Hs & Hm & Hp & Hk)].
      * left. now left.
      * apply elem_of_cons in Hf as [-> | Hf].
        -- left. right. exists s, m. now repeat split.
        -- right. exists fd', s, m. now repeat split.
Qed.

Lemma foldl_scanFile_allTrue (files : list FileDescriptor) (acc : gmap string bool) :
  allTrue acc → allTrue (foldl scanFile acc files).
Proof.
  revert acc. induction files as [|fd files IH]; intros acc Hacc; simpl; [exact Hacc|].
  apply IH. now apply scanFile_allTrue.
Qed.

(** C9. On the first call (nil cache), a key is in the discovered set
    exactly when some method of some service of the registry has options
    carrying the public_endpoint extension with the bool value true and the
    key is "/" followed by the full name of the service, "/" and the name of
    the method; methods with nil options, without the extension or with
    any other value add nothing, and the map holds no value but true. *)
Theorem DiscoverPublicEndpoints_spec (files : list FileDescriptor) (key : string) :
  let endpoints := (DiscoverPublicEndpoints files None).1 in
  (endpoints !! key = Some true
   ↔ ∃ fd service method,
       fd ∈ files ∧ service ∈ fd_Services fd ∧ method ∈ sd_Methods service
       ∧ (∃ opts, md_Options method = Some opts
                  ∧ E_PublicEndpoint opts = Some (ExtBool true))
       ∧ key = "/" +:+ sd_FullName service +:+ "/" +:+ md_Name method)
  ∧ (endpoints !! key = None ∨ endpoints !! key = Some true)
  ∧ (∀ method,
       md_Options method = None
       ∨ (∃ opts, md_Options method = Some opts
                  ∧ E_PublicEndpoint opts ≠ Some (ExtBool true)) →
       isPublicEndpoint method = false).
Proof.
  simpl. unfold scanFiles. split; [|split].
  - rewrite foldl_scanFile_lookup. split.
    + intros [H | (fd & s & m & Hf & Hs & Hm & Hp & Hk)].
      * now rewrite lookup_empty in H.
      * exists fd, s, m. apply isPublicEndpoint_true_iff in Hp. now repeat split.
    + intros (fd & s & m & Hf & Hs & Hm & Hp & Hk). right.
      exists fd, s, m. apply isPublicEndpoint_true_iff in Hp. now repeat split.
  - destruct (foldl scanFile ∅ files !! key) as [b|] eqn:E; [|now left].
    right. f_equal. apply (foldl_scanFile_allTrue files ∅) in E; [exact E|].
    intros k b'. now rewrite lookup_empty.
  - intros method H. destruct (isPublicEndpoint method) eqn:Hp; [|reflexivity].
    apply isPublicEndpoint_true_iff in Hp as (opts & Ho & He).
    destruct H as [H | (opts' & Ho' & Hne)]; congruence.
Qed.

Lemma DiscoverPublicEndpoints_witness :
  (DiscoverPublicEndpoints sampleFiles None).1
    !! "/user.v1.MerchantService/LoginMerchant" = Some true
  ∧ (DiscoverPublicEndpoints sampleFiles None).1
      !! "/user.v1.MerchantService/GetMerchant" = None
  ∧ (DiscoverPublicEndpoints sampleFiles None).1
      !! "/user.v1.MerchantService/UpdateMerchant" = None.
Proof.
  split; [|split; vm_compute; reflexivity].
  destruct (DiscoverPublicEndpoints_spec sampleFiles
              "/user.v1.MerchantService/LoginMerchant") as [H _].
  apply H. exists {| fd_Services := [merchantService] |}, merchantService, loginMethod.
  repeat split.
  - apply elem_of_cons. right. apply elem_of_cons. now left.
  - apply elem_of_cons. now left.
  - apply elem_of_cons. now left.
  - eexists. split; reflexivity.
Defined.

(** Once built, the cache is what every later call returns. *)
Lemma DiscoverPublicEndpoints_cached (files files' : list FileDescriptor) :
  let first := DiscoverPublicEndpoints files None in
  DiscoverPublicEndpoints files' first.2 = first.
Proof. reflexivity. Qed.

End ReflectionSpec.

(** ** The response envelope marshaler *)
Module MarshalerSpec.
Import GoStrings GoStringsFacts HTTP RateLimiter RateLimiterSpec Marshaler.

Lemma sortedEntries_failureMap (statusCode : Z) (msg : dyn) :
  sortedEntries (failureMap statusCode msg)
  = [("data", DNil); ("message", msg); ("status", DInt statusCode)].
Proof. vm_compute. reflexivity. Qed.

(** [json.Marshal] on the failure map: the members come out sorted by key,
    and the only possible failure is that of the message value. *)
Lemma json_Marshal_failureMap (statusCode : Z) (msg : dyn) :
  json_Marshal_map (failureMap statusCode msg)
  = match json_Marshal_dyn msg with
    | inl j => inl (JObject [("data", JNull); ("message", j); ("status", JInt statusCode)])
    | inr e => inr e
    end.
Proof.
  unfold json_Marshal_map. rewrite sortedEntries_failureMap. simpl.
  now destruct (json_Marshal_dyn msg).
Qed.

Lemma isEnvelope_failure (st : Z) (msg : json) :
  isEnvelope (JObject [("data", JNull); ("message", msg); ("status", JInt st)]).
Proof.
  exists [("data", JNull); ("message", msg); ("status", JInt st)], st, msg, JNull.
  split; [reflexivity|].
  change [("data", JNull); ("message", msg); ("status", JInt st)]
    with (reverse [("status", JInt st); ("message", msg); ("data", JNull)]).
  apply reverse_Permutation.
Qed.

Lemma isEnvelope_success (st : Z) (message : string) (data : json) :
  isEnvelope (JObject [("status", JInt st); ("message", JString message); ("data", data)]).
Proof. eexists _, st, (JString message), data. split; reflexivity. Qed.

Lemma render_JObject_head (ff : float → string) (esc : string → string)
    (members : list (string * json)) :
  ∃ rest, render ff esc (JObject members) = String "{"%char rest.
Proof. simpl. rewrite append_String. eexists. reflexivity. Qed.

(** No envelope is written as the text of a rate-limit rejection. *)
Lemma rejection_text_not_envelope :
  ¬ EnvelopeBody ("Too Many Requests" +:+ newline).
Proof.
  intros (ff & esc & j & (members & st & msg & d & -> & _) & Hb).
  destruct (render_JObject_head ff esc members) as [rest Hr].
  rewrite Hr in Hb. vm_compute in Hb. discriminate Hb.
Qed.

Section WithRuntime.
Variable int_of_unrepresentable : float → Z.
Variable FormatFloat : float → string.
Variable escapeString : string → string.
Variable payload : Type.
Variable JSONPb_Marshal : Value payload → result json.

Local Abbreviation MarshalDoc := (Marshaler.MarshalDoc int_of_unrepresentable JSONPb_Marshal).
Local Abbreviation Marshal :=
  (Marshaler.Marshal int_of_unrepresentable FormatFloat escapeString JSONPb_Marshal).
Local Abbreviation render := (Marshaler.render FormatFloat escapeString).
Local Abbreviation statusCodeOf := (Marshaler.statusCodeOf int_of_unrepresentable).
Local Abbreviation float64_to_int := (Marshaler.float64_to_int int_of_unrepresentable).

Lemma MarshalDoc_error_map (m : gmap string dyn) (code msg : dyn) :
  m !! "code" = Some code →
  m !! "message" = Some msg →
  MarshalDoc (VMap m) = json_Marshal_map (failureMap (statusCodeOf code) msg).
Proof. intros Hc Hm. unfold Marshaler.MarshalDoc. now rewrite Hc, Hm. Qed.

Lemma MarshalDoc_Status (code : Z) (message : string) :
  MarshalDoc (VStatus code message)
  = inl (JObject [("data", JNull); ("message", JString message);
                  ("status", JInt (HTTPStatusFromCode (Code code)))]).
Proof. unfold Marshaler.MarshalDoc. apply json_Marshal_failureMap. Qed.

Lemma MarshalDoc_success (v : Value payload) :
  successPath v →
  MarshalDoc v
  = match JSONPb_Marshal v with
    | inl data => inl (JObject [("status", JInt 200); ("message", JString "success");
                                ("data", data)])
    | inr err => inr err
    end.
Proof.
  unfold Marshaler.MarshalDoc. destruct v as [m|code message|p]; simpl.
  - intros [H | H].
    + now rewrite H.
    + rewrite H. now destruct (m !! "code").
  - intros [].
  - reflexivity.
Qed.

Lemma successPath_or_failure (v : Value payload) :
  successPath v
  ∨ (∃ m code msg, v = VMap m ∧ m !! "code" = Some code ∧ m !! "message" = Some msg)
  ∨ (∃ code message, v = VStatus code message).
Proof.
  destruct v as [m|code message|p]; simpl.
  - destruct (m !! "code") as [code|] eqn:Hc; [|left; now left].
    destruct (m !! "message") as [msg|] eqn:Hm; [|left; now right].
    right. left. now exists m, code, msg.
  - right. right. now exists code, message.
  - now left.
Qed.

(** Whatever the marshaler writes is an envelope. *)
Lemma MarshalDoc_isEnvelope (v : Value payload) (j : json) :
  MarshalDoc v = inl j → isEnvelope j.
Proof.
  destruct (successPath_or_failure v)
    as [Hs | [(m & code & msg & -> & Hc & Hm) | (code & message & ->)]].
  - rewrite (MarshalDoc_success v Hs).
    destruct (JSONPb_Marshal v); [|discriminate].
    intros [= <-]. apply isEnvelope_success.
  - rewrite (MarshalDoc_error_map m code msg Hc Hm), json_Marshal_failureMap.
    destruct (json_Marshal_dyn msg); [|discriminate].
    intros [= <-]. apply isEnvelope_failure.
  - rewrite MarshalDoc_Status. intros [= <-]. apply isEnvelope_failure.
Qed.

Lemma Marshal_of_doc (v : Value payload) (j : json) :
  MarshalDoc v = inl j → Marshal v = inl (render j).
Proof. intros H. unfold Marshaler.Marshal. now rewrite H. Qed.

(** C10, amended. A [map[string]interface{}] holding both a "code" and a
    "message" key is marshaled as the failure map, never through the
    embedded marshaler, whatever else it holds. When [encoding/json] can
    write the message value, the document is the envelope with data null,
    the message value under "message" and the status computed from the
    code value; when it cannot, [Marshal] returns the error of
    [encoding/json] and no envelope. The status is 200 when the code value
    is not an int, an int32 or a float64. A value of another type, a
    [map[string]string] with both keys among them, is wrapped as a success
    payload. *)
Theorem Marshal_error_shaped_map (m : gmap string dyn) (code msg : dyn) :
  m !! "code" = Some code →
  m !! "message" = Some msg →
  MarshalDoc (VMap m) = json_Marshal_map (failureMap (statusCodeOf code) msg)
  ∧ (∀ JSONPb_Marshal' : Value payload → result json,
       Marshaler.MarshalDoc int_of_unrepresentable JSONPb_Marshal' (VMap m)
       = MarshalDoc (VMap m))
  ∧ (∀ j, json_Marshal_dyn msg = inl j →
       MarshalDoc (VMap m)
       = inl (JObject [("data", JNull); ("message", j);
                       ("status", JInt (statusCodeOf code))])
       ∧ Marshal (VMap m)
         = inl (render (JObject [("data", JNull); ("message", j);
                                 ("status", JInt (statusCodeOf code))])))
  ∧ ((∀ val, code ≠ DInt val) → (∀ val, code ≠ DInt32 val) →
     (∀ val, code ≠ DFloat64 val) → statusCodeOf code = 200)
  ∧ (∀ err, json_Marshal_dyn msg = inr err →
       MarshalDoc (VMap m) = inr err ∧ Marshal (VMap m) = inr err)
  ∧ (∀ p : payload,
       MarshalDoc (VOther p)
       = match JSONPb_Marshal (VOther p) with
         | inl data => inl (JObject [("status", JInt 200);
                                     ("message", JString "success"); ("data", data)])
         | inr err => inr err
         end).
Proof.
  intros Hc Hm.
  pose proof (MarshalDoc_error_map m code msg Hc Hm) as Hdoc.
  split; [exact Hdoc|]. split; [|split; [|split; [|split]]].
  - intros pb. unfold Marshaler.MarshalDoc. now rewrite Hc, Hm.
  - intros j Hj.
    assert (MarshalDoc (VMap m)
            = inl (JObject [("data", JNull); ("message", j);
                            ("status", JInt (statusCodeOf code))])) as H.
    { rewrite Hdoc, json_Marshal_failureMap. now rewrite Hj. }
    split; [exact H|]. now apply Marshal_of_doc.
  - intros H1 H2 H3. destruct code; try reflexivity.
    + now destruct (H1 val).
    + now destruct (H2 val).
    + now destruct (H3 val).
  - intros err He.
    assert (MarshalDoc (VMap m) = inr err) as H.
    { rewrite Hdoc, json_Marshal_failureMap. now rewrite He. }
    split; [exact H|]. unfold Marshaler.Marshal. now rewrite H.
  - intros p. now apply MarshalDoc_success.
Qed.

(** C8, amended. A value taking the success path is wrapped as status
    200, message "success" and its marshaled data, in this order; for the
    payload with the single member foo = "bar" the bytes are exactly the
    success envelope of the claim. The failure status NotFound with message
    "merchant not found" gives the members data null, message and status
    404, written in key order. On every failure path data is null; the
    status is the HTTP status of the code (as a uint32) for a status value
    and for a map whose code is an int, an int32 or a float64, and 200 for
    a map whose code is of another type. *)
Theorem Marshal_round_trip :
  (∀ (v : Value payload) (data : json),
     successPath v → JSONPb_Marshal v = inl data →
     MarshalDoc v
     = inl (JObject [("status", JInt 200); ("message", JString "success");
                     ("data", data)]))
  ∧ (JSONPb_Marshal (VMap {[ "foo" := DString "bar" ]})
     = inl (JObject [("foo", JString "bar")]) →
     Marshal (VMap {[ "foo" := DString "bar" ]}) = inl successBytes)
  ∧ Marshal (VStatus 5 "merchant not found") = inl sortedFailureBytes
  ∧ (∀ (code : Z) (message : string),
       MarshalDoc (VStatus code message)
       = inl (JObject [("data", JNull); ("message", JString message);
                       ("status", JInt (HTTPStatusFromCode (Code code)))]))
  ∧ (∀ (m : gmap string dyn) (code msg : dyn) (j : json),
       m !! "code" = Some code → m !! "message" = Some msg →
       json_Marshal_dyn msg = inl j →
       MarshalDoc (VMap m)
       = inl (JObject [("data", JNull); ("message", j);
                       ("status", JInt (statusCodeOf code))])
       ∧ statusCodeOf code
         = match code with
           | DInt val | DInt32 val => HTTPStatusFromCode (Code val)
           | DFloat64 val => HTTPStatusFromCode (Code (float64_to_int val))
           | _ => 200
           end).
Proof.
  split; [|split; [|split; [|split]]].
  - intros v data Hs Hd. rewrite (MarshalDoc_success v Hs). now rewrite Hd.
  - intros Hd. unfold Marshaler.Marshal.
    rewrite MarshalDoc_success by (left; reflexivity). rewrite Hd.
    vm_compute. reflexivity.
  - unfold Marshaler.Marshal. rewrite MarshalDoc_Status. vm_compute. reflexivity.
  - apply MarshalDoc_Status.
  - intros m code msg j Hc Hm Hj. split.
    + rewrite (MarshalDoc_error_map m code msg Hc Hm), json_Marshal_failureMap.
      now rewrite Hj.
    + now destruct code.
Qed.

(** C2, amended. Whatever the marshaler writes, on the success path or on
    a failure path, is the bytes of a three-key envelope. A rate-limit
    rejection does not pass through the marshaler: the limiter answers
    with status 429 and the text "Too Many Requests", which is no
    envelope. *)
Theorem responses_enveloped_by_Marshal :
  (∀ (v : Value payload) (bytes : string),
     Marshal v = inl bytes → ∃ j, isEnvelope j ∧ bytes = render j)
  ∧ (∀ (Allow : string → redis_Limit → redis_Result + string)
       (cfg : RateLimitConfig) (next : Handler) (r : Request)
       (w : ResponseWriter) (res : redis_Result),
       Enabled cfg = true →
       Allow (getLimit cfg r).1 (getLimit cfg r).2 = inl res →
       Allowed res = 0 →
       rw_Status w = None → rw_Body w = EmptyString →
       let out := (Limit Allow cfg next r w).1 in
       rw_Status out = Some 429
       ∧ rw_Body out = "Too Many Requests" +:+ newline
       ∧ ¬ EnvelopeBody (rw_Body out)).
Proof.
  split.
  - intros v bytes. unfold Marshaler.Marshal.
    destruct (MarshalDoc v) as [j|e] eqn:Hd; [|discriminate].
    intros [= <-]. exists j. split; [|reflexivity].
    now apply (MarshalDoc_isEnvelope v).
  - intros Allow cfg next r w res He Ha Hz Hs Hb out.
    destruct (Limit_denied Allow cfg next r w res He Ha Hz) as (w4 & HL & Hs4 & Hb4).
    subst out. rewrite HL. cbn [fst].
    assert (rw_Body (HTTP.Error "Too Many Requests" StatusTooManyRequests w4)
            = "Too Many Requests" +:+ newline) as Hbody.
    { rewrite Error_Body, Hb4, Hb. reflexivity. }
    split; [|split].
    + apply Error_Status. congruence.
    + exact Hbody.
    + rewrite Hbody. exact rejection_text_not_envelope.
Qed.

End WithRuntime.

Lemma Marshal_error_shaped_map_witness :
  MarshalDoc sampleOverflow sampleJSONPb (VMap orderPayload)
  = inl (JObject [("data", JNull); ("message", JString "order placed");
                  ("status", JInt 200)])
  ∧ sampleJSONPb (VMap orderPayload)
    = inl (JObject [("code", JString "A-17"); ("message", JString "order placed");
                    ("total", JInt 3)]).
Proof.
  split; [|vm_compute; reflexivity].
  destruct (Marshal_error_shaped_map sampleOverflow sampleFormatFloat sampleEscape
              unit sampleJSONPb orderPayload (DString "A-17") (DString "order placed")
              eq_refl eq_refl) as (_ & _ & H & _).
  destruct (H (JString "order placed") eq_refl) as [Hdoc _]. exact Hdoc.
Defined.

Lemma Marshal_round_trip_witness :
  Marshal sampleOverflow sampleFormatFloat sampleEscape sampleJSONPb
    (VMap {[ "foo" := DString "bar" ]})
  = inl successBytes.
Proof.
  destruct (Marshal_round_trip sampleOverflow sampleFormatFloat sampleEscape
              unit sampleJSONPb) as (_ & H & _).
  apply H. vm_compute. reflexivity.
Defined.

Lemma responses_enveloped_witness :
  ∃ j, isEnvelope j
       ∧ sortedFailureBytes = render sampleFormatFloat sampleEscape j.
Proof.
  destruct (responses_enveloped_by_Marshal sampleOverflow sampleFormatFloat
              sampleEscape unit sampleJSONPb) as [H _].
  apply (H (VStatus 5 "merchant not found")). vm_compute. reflexivity.
Defined.

(** C10, as stated, fails: a [map[string]string] with both keys is no
    [map[string]interface{}] and is wrapped as a success payload, with
    status 200 and itself as data; and for a [map[string]interface{}] with
    both keys whose message is a NaN the marshaler emits no envelope but
    the error of [encoding/json]. *)
Lemma Marshal_both_keys_without_failure_envelope :
  orderStrings !! "code" = Some "A-17"
  ∧ orderStrings !! "message" = Some "order placed"
  ∧ MarshalDoc sampleOverflow stringMapJSONPb (VOther orderStrings)
    = inl (JObject [("status", JInt 200); ("message", JString "success");
                    ("data", JObject [("code", JString "A-17");
                                      ("message", JString "order placed")])])
  ∧ Marshal sampleOverflow sampleFormatFloat sampleEscape sampleJSONPb
      (VMap {[ "code" := DInt 5; "message" := DFloat64 nan ]})
    = inr "json: unsupported value: NaN".
Proof. repeat split; vm_compute; reflexivity. Qed.

(** C8, as stated, fails: the failure envelope is written with its keys
    sorted, not in the order status, message, data; and a failure map whose
    code is a string gets status 200, not a status mapped from a code. *)
Lemma Marshal_failure_bytes_differ :
  Marshal sampleOverflow sampleFormatFloat sampleEscape sampleJSONPb
    (VStatus 5 "merchant not found")
  ≠ inl claimedFailureBytes
  ∧ Marshal sampleOverflow sampleFormatFloat sampleEscape sampleJSONPb
      (VStatus 5 "merchant not found")
    = inl sortedFailureBytes
  ∧ MarshalDoc sampleOverflow sampleJSONPb
      (VMap {[ "code" := DString "NOT_FOUND";
               "message" := DString "merchant not found" ]})
    = inl (JObject [("data", JNull); ("message", JString "merchant not found");
                    ("status", JInt 200)]).
Proof.
  split; [|split].
  - vm_compute. discriminate.
  - vm_compute. reflexivity.
  - vm_compute. reflexivity.
Qed.

(** C2, as stated, fails: the body of a rate-limit rejection is not an
    envelope. *)
Lemma rate_limit_rejection_not_enveloped :
  ¬ EnvelopeBody
      (rw_Body (Limit storeDenies sampleConfig okHandler sampleAnonRequest
                  emptyResponse).1).
Proof.
  assert (rw_Body (Limit storeDenies sampleConfig okHandler sampleAnonRequest
                     emptyResponse).1
          = "Too Many Requests" +:+ newline) as -> by (vm_compute; reflexivity).
  exact rejection_text_not_envelope.
Qed.

End MarshalerSpec.

(** ** Further properties of the rate limiter *)
Module RateLimiterMore.
Import GoStrings GoStringsFacts HTTP RateLimiter RateLimiterSpec More.

Lemma ContainsByte_append (c : ascii) (s t : string) :
  ContainsByte c (s +:+ t) = ContainsByte c s || ContainsByte c t.
Proof.
  induction s as [|a s IH]; [reflexivity|].
  rewrite append_String. simpl. now destruct (Ascii.eqb a c).
Qed.

Lemma SplitFirst_no_separator (c : ascii) (s : string) :
  ContainsByte c s = false → SplitFirst c s = s.
Proof.
  induction s as [|a s IH]; [reflexivity|]. simpl.
  destruct (Ascii.eqb a c); [discriminate|]. intros H. now rewrite IH.
Qed.

Lemma SplitFirst_append (c : ascii) (s rest : string) :
  ContainsByte c s = false → SplitFirst c (s +:+ String c rest) = s.
Proof.
  induction s as [|a s IH]; cbn [ContainsByte].
  - intros _. rewrite append_Empty. simpl. now rewrite Ascii.eqb_refl.
  - destruct (Ascii.eqb a c) eqn:E; [discriminate|]. intros H.
    rewrite append_String. simpl. rewrite E. now rewrite IH.
Qed.

Lemma BeforeLast_append (c : ascii) (host port : string) :
  ContainsByte c port = false →
  BeforeLast c (host +:+ String c port) = Some host.
Proof.
  intros Hp. induction host as [|a host IH].
  - rewrite append_Empty. simpl.
    apply BeforeLast_None in Hp. rewrite Hp. now rewrite Ascii.eqb_refl.
  - rewrite append_String. simpl. now rewrite IH.
Qed.

Lemma allAsciiSpace_no_comma (pad : string) :
  allAsciiSpace pad = true → ContainsByte comma pad = false.
Proof.
  induction pad as [|a pad IH]; [reflexivity|]. simpl.
  intros [Ha Hp]%andb_prop. rewrite (IH Hp).
  destruct (Ascii.eqb a comma) eqn:E; [|reflexivity].
  apply Ascii.eqb_eq in E. subst a. discriminate Ha.
Qed.

Lemma TrimLeftSpace_pad (pad s : string) :
  allAsciiSpace pad = true → TrimLeftSpace (pad +:+ s) = TrimLeftSpace s.
Proof.
  induction pad as [|a pad IH]; [reflexivity|]. cbn [allAsciiSpace].
  intros [Ha Hp]%andb_prop. rewrite append_String. simpl. rewrite Ha. now apply IH.
Qed.

Lemma TrimLeftSpaceRev_pad (pad s : string) :
  allAsciiSpace pad = true →
  TrimLeftSpaceRev (String.rev pad +:+ s) = TrimLeftSpaceRev s.
Proof.
  revert s. induction pad as [|a pad IH]; intros s; [reflexivity|].
  cbn [allAsciiSpace]. intros [Ha Hp]%andb_prop.
  rewrite rev_String, append_assoc.
  change (String a EmptyString +:+ s) with (String a s).
  rewrite (IH _ Hp). simpl. now rewrite Ha.
Qed.

Lemma plainByte_spec (a : ascii) :
  plainByte a = true →
  asciiSpace a = false
  ∧ (∀ b, space2 a b = false) ∧ (∀ b, space2 b a = false)
  ∧ (∀ b c, space3 a b c = false) ∧ (∀ b c, space3 c b a = false).
Proof.
  unfold plainByte. intros [Hlt Hs]%andb_prop.
  apply negb_true_iff in Hs. apply N.ltb_lt in Hlt.
  assert (∀ n, (128 <= n)%N → byte_is n a = false) as Hb.
  { intros n Hn. unfold byte_is. apply N.eqb_neq. lia. }
  split; [exact Hs|]. unfold space2, space3.
  repeat split; intros.
  - now rewrite (Hb 194%N) by lia.
  - rewrite (Hb 133%N), (Hb 160%N) by lia. now rewrite andb_false_r.
  - rewrite (Hb 225%N), (Hb 226%N), (Hb 227%N) by lia. reflexivity.
  - rewrite (Hb 128%N), (Hb 168%N), (Hb 169%N), (Hb 175%N), (Hb 159%N) by lia.
    assert (N.leb 128 (N_of_ascii a) = false) as -> by (apply N.leb_gt; lia).
    now rewrite !andb_false_r.
Qed.

Lemma TrimLeftSpace_plain (s : string) :
  headPlain s = true → TrimLeftSpace s = s.
Proof.
  destruct s as [|a r]; [discriminate|]. simpl. intros H.
  destruct (plainByte_spec a H) as (H1 & H2 & _ & H3 & _). rewrite H1.
  destruct r as [|b r1]; [reflexivity|]. rewrite H2.
  destruct r1 as [|c r2]; [reflexivity|]. now rewrite H3.
Qed.

Lemma TrimLeftSpaceRev_plain (s : string) :
  headPlain s = true → TrimLeftSpaceRev s = s.
Proof.
  destruct s as [|a r]; [discriminate|]. simpl. intros H.
  destruct (plainByte_spec a H) as (H1 & _ & H2 & _ & H3). rewrite H1.
  destruct r as [|b r1]; [reflexivity|]. rewrite H2.
  destruct r1 as [|c r2]; [reflexivity|]. now rewrite H3.
Qed.

(** Padding of ASCII white space around a text that starts and ends with a
    plain byte is what [TrimSpace] removes. *)
Lemma TrimSpace_padded (pad1 ip pad2 : string) :
  allAsciiSpace pad1 = true → allAsciiSpace pad2 = true →
  headPlain ip = true → headPlain (String.rev ip) = true →
  TrimSpace (pad1 +:+ ip +:+ pad2) = ip.
Proof.
  intros H1 H2 Hh Hl. unfold TrimSpace, TrimRightSpace.
  rewrite (TrimLeftSpace_pad _ _ H1).
  assert (headPlain (ip +:+ pad2) = true) as Hh'.
  { destruct ip; [discriminate|exact Hh]. }
  rewrite (TrimLeftSpace_plain _ Hh').
  rewrite rev_append, (TrimLeftSpaceRev_pad _ _ H2), (TrimLeftSpaceRev_plain _ Hl).
  apply rev_involutive.
Qed.

(** X1: the first hop of X-Forwarded-For. When the header value is an
    address, with ASCII white space around it or not, followed or not by a
    comma and further hops, the client address is that address: the padding
    and everything from the first comma on are dropped, and neither
    X-Real-IP nor the peer address is looked at. *)
Theorem getClientIP_first_hop (r : Request) (pad1 ip pad2 tail : string) :
  allAsciiSpace pad1 = true → allAsciiSpace pad2 = true →
  headPlain ip = true → headPlain (String.rev ip) = true →
  ContainsByte comma ip = false →
  (tail = EmptyString ∨ ∃ hops, tail = String comma hops) →
  Header_Get (req_Header r) "X-Forwarded-For" = pad1 +:+ ip +:+ pad2 +:+ tail →
  getClientIP r = ip.
Proof.
  intros H1 H2 Hh Hl Hc Ht Hx. unfold getClientIP. rewrite Hx.
  assert (pad1 +:+ ip +:+ pad2 +:+ tail ≠ EmptyString) as Hne.
  { destruct pad1; [|discriminate]. destruct ip; [discriminate Hh|discriminate]. }
  apply eqb_Empty_false in Hne. rewrite Hne. cbn [negb].
  assert (ContainsByte comma (pad1 +:+ ip +:+ pad2) = false) as Hnc.
  { rewrite !ContainsByte_append, Hc, !allAsciiSpace_no_comma by assumption.
    reflexivity. }
  assert (SplitFirst comma (pad1 +:+ ip +:+ pad2 +:+ tail) = pad1 +:+ ip +:+ pad2) as ->.
  { destruct Ht as [-> | [hops ->]].
    - rewrite append_Empty_r. now apply SplitFirst_no_separator.
    - rewrite <- !append_assoc. rewrite (append_assoc pad1 ip pad2).
      now apply SplitFirst_append. }
  now apply TrimSpace_padded.
Qed.

(** X2: the peer address. Without forwarding headers, a peer address made
    of a host, a colon and a port without colon resolves to the host,
    whatever colons the host holds (a bracketed IPv6 literal keeps its
    brackets). *)
Theorem getClientIP_host_port (r : Request) (host port : string) :
  Header_Get (req_Header r) "X-Forwarded-For" = EmptyString →
  Header_Get (req_Header r) "X-Real-IP" = EmptyString →
  ContainsByte colon port = false →
  req_RemoteAddr r = host +:+ String colon port →
  getClientIP r = host.
Proof.
  intros H1 H2 Hp Ha. unfold getClientIP. rewrite H1, H2, Ha. cbn [String.eqb negb].
  rewrite ContainsByte_append. simpl. rewrite orb_true_r.
  now rewrite BeforeLast_append.
Qed.

(** X3: keys and principals. Two requests get the same rate key exactly
    when both carry the same non-empty credential, or neither carries one
    and both resolve to the same client address. *)
Theorem getLimit_same_key_iff (cfg cfg' : RateLimitConfig) (r1 r2 : Request) :
  (getLimit cfg r1).1 = (getLimit cfg' r2).1
  ↔ (Header_Get (req_Header r1) "Authorization" ≠ EmptyString
     ∧ Header_Get (req_Header r1) "Authorization"
       = Header_Get (req_Header r2) "Authorization")
    ∨ (Header_Get (req_Header r1) "Authorization" = EmptyString
       ∧ Header_Get (req_Header r2) "Authorization" = EmptyString
       ∧ getClientIP r1 = getClientIP r2).
Proof.
  unfold getLimit.
  destruct (String.eqb_spec (Header_Get (req_Header r1) "Authorization") EmptyString)
    as [E1|E1];
  destruct (String.eqb_spec (Header_Get (req_Header r2) "Authorization") EmptyString)
    as [E2|E2]; cbn [negb fst]; split.
  - intros H. apply String.app_inj in H. right. now repeat split.
  - intros [[H _] | (_ & _ & H)]; [contradiction|]. now rewrite H.
  - intros H. symmetry in H. now apply auth_key_ne_ip_key in H.
  - intros [[H H'] | (_ & H & _)]; [congruence|contradiction].
  - intros H. now apply auth_key_ne_ip_key in H.
  - intros [[_ H] | (H & _)]; [congruence|contradiction].
  - intros H. apply String.app_inj in H. left. now split.
  - intros [[_ H] | (H & _)]; [now rewrite H|contradiction].
Qed.

Section WithStore.
Variable Allow : string → redis_Limit → redis_Result + string.

(** X4: the disabled limiter. With the flag off the request goes to the
    next handler with the response writer untouched and nothing is logged,
    whatever the counter store would answer: the store is not consulted. *)
Theorem Limit_disabled (cfg : RateLimitConfig) (next : Handler)
    (r : Request) (w : ResponseWriter) :
  Enabled cfg = false →
  Limit Allow cfg next r w = (next r w, [])
  ∧ ∀ Allow' : string → redis_Limit → redis_Result + string,
      Limit Allow' cfg next r w = Limit Allow cfg next r w.
Proof.
  intros H. unfold Limit. rewrite H. split; [reflexivity|]. intros Allow'. reflexivity.
Qed.

Lemma Limit_denied_headers (cfg : RateLimitConfig) (next : Handler)
    (r : Request) (w : ResponseWriter) (res : redis_Result) (key : string) :
  Enabled cfg = true →
  Allow (getLimit cfg r).1 (getLimit cfg r).2 = inl res →
  Allowed res = 0 →
  CanonicalMIMEHeaderKey "Content-Length" ≠ CanonicalMIMEHeaderKey key →
  CanonicalMIMEHeaderKey "Content-Type" ≠ CanonicalMIMEHeaderKey key →
  CanonicalMIMEHeaderKey "X-Content-Type-Options" ≠ CanonicalMIMEHeaderKey key →
  Header_Get (rw_Header (Limit Allow cfg next r w).1) key
  = Header_Get
      (rw_Header (setHeader "Retry-After" (FormatInt (Z.quot (RetryAfter res) Second))
                    (withLimitHeaders (getLimit cfg r).2 res w))) key.
Proof.
  intros He Ha Hz H1 H2 H3. unfold Limit. rewrite He. cbn [negb].
  destruct (getLimit cfg r) as [k limit]. cbn [fst snd] in *. rewrite Ha, Hz.
  cbn [Z.eqb fst]. now apply Error_Header_Get.
Qed.

(** X5: Retry-After in whole seconds, rounded down. On a denied request
    whose retry delay is not negative the header is the number of full
    seconds in the delay, so a delay below one second is announced as 0. *)
Theorem Limit_retry_after_floor (cfg : RateLimitConfig) (next : Handler)
    (r : Request) (w : ResponseWriter) (res : redis_Result) :
  Enabled cfg = true →
  Allow (getLimit cfg r).1 (getLimit cfg r).2 = inl res →
  Allowed res = 0 →
  0 <= RetryAfter res →
  let out := (Limit Allow cfg next r w).1 in
  Header_Get (rw_Header out) "Retry-After" = FormatInt (RetryAfter res / Second)
  ∧ (RetryAfter res < Second → Header_Get (rw_Header out) "Retry-After" = "0").
Proof.
  intros He Ha Hz Hr out. subst out.
  rewrite (Limit_denied_headers cfg next r w res "Retry-After" He Ha Hz)
    by (vm_compute; discriminate).
  cbn [rw_Header setHeader]. rewrite Header_Get_Set_eq.
  rewrite Z.quot_div_nonneg by (unfold Second; lia).
  split; [reflexivity|]. intros Hlt.
  rewrite Z.div_small by lia. reflexivity.
Qed.

End WithStore.

Lemma getClientIP_first_hop_witness :
  getClientIP sampleAnonRequest = "203.0.113.7".
Proof.
  apply (getClientIP_first_hop sampleAnonRequest " " "203.0.113.7" " " ", 10.0.0.1");
    try reflexivity.
  right. now exists " 10.0.0.1".
Defined.

Lemma getClientIP_host_port_witness :
  getClientIP {| req_Header := ∅; req_RemoteAddr := "[2001:db8::1]:443" |}
  = "[2001:db8::1]".
Proof.
  apply (getClientIP_host_port _ "[2001:db8::1]" "443"); reflexivity.
Defined.

Lemma getLimit_same_key_witness :
  (getLimit sampleConfig sampleAnonRequest).1
  = (getLimit sampleConfig
       {| req_Header := {[ "X-Real-Ip" := ["203.0.113.7"] ]};
          req_RemoteAddr := "192.0.2.1:80" |}).1.
Proof.
  apply (getLimit_same_key_iff sampleConfig sampleConfig). right.
  repeat split; vm_compute; reflexivity.
Defined.

Lemma Limit_disabled_witness :
  Limit storeDenies
    {| Enabled := false; PublicRPS := 10; PublicBurst := 20;
       AuthRPS := 100; AuthBurst := 200 |}
    okHandler sampleAnonRequest emptyResponse
  = (okHandler sampleAnonRequest emptyResponse, []).
Proof.
  apply (Limit_disabled storeDenies _ okHandler sampleAnonRequest emptyResponse).
  reflexivity.
Defined.

Lemma Limit_retry_after_floor_witness :
  Header_Get
    (rw_Header
       (Limit (λ _ _, inl {| Allowed := 0; Remaining := 0; RetryAfter := 400000000;
                             ResetAfter := 400000000 |})
          sampleConfig okHandler sampleAnonRequest emptyResponse).1)
    "Retry-After" = "0".
Proof.
  apply (Limit_retry_after_floor
           (λ _ _, inl {| Allowed := 0; Remaining := 0; RetryAfter := 400000000;
                          ResetAfter := 400000000 |})
           sampleConfig okHandler sampleAnonRequest emptyResponse
           {| Allowed := 0; Remaining := 0; RetryAfter := 400000000;
              ResetAfter := 400000000 |});
    try reflexivity; vm_compute; congruence.
Defined.

End RateLimiterMore.

(** ** The CORS middleware and the handler chain *)
Module CORSSpec.
Import GoStrings GoStringsFacts HTTP RateLimiter RateLimiterSpec RateLimiterMore CORS.

Lemma corsHeaders_Get (w : ResponseWriter) :
  let h := rw_Header (corsHeaders w) in
  Header_Get h "Access-Control-Allow-Origin" = "*"
  ∧ Header_Get h "Access-Control-Allow-Methods" = "GET, POST, PUT, DELETE, OPTIONS, PATCH"
  ∧ Header_Get h "Access-Control-Allow-Headers"
    = "Content-Type, Authorization, X-Requested-With"
  ∧ Header_Get h "Access-Control-Allow-Credentials" = "true".
Proof.
  cbn [corsHeaders rw_Header setHeader]. repeat split.
  - rewrite !Header_Get_Set_ne by (vm_compute; discriminate). apply Header_Get_Set_eq.
  - rewrite !Header_Get_Set_ne by (vm_compute; discriminate). apply Header_Get_Set_eq.
  - rewrite Header_Get_Set_ne by (vm_compute; discriminate). apply Header_Get_Set_eq.
  - apply Header_Get_Set_eq.
Qed.

Lemma corsHeaders_other (w : ResponseWriter) (key : string) :
  CanonicalMIMEHeaderKey "Access-Control-Allow-Origin" ≠ CanonicalMIMEHeaderKey key →
  CanonicalMIMEHeaderKey "Access-Control-Allow-Methods" ≠ CanonicalMIMEHeaderKey key →
  CanonicalMIMEHeaderKey "Access-Control-Allow-Headers" ≠ CanonicalMIMEHeaderKey key →
  CanonicalMIMEHeaderKey "Access-Control-Allow-Credentials" ≠ CanonicalMIMEHeaderKey key →
  Header_Get (rw_Header (corsHeaders w)) key = Header_Get (rw_Header w) key.
Proof.
  intros H1 H2 H3 H4. cbn [corsHeaders rw_Header setHeader].
  now rewrite (Header_Get_Set_ne _ _ _ _ H4), (Header_Get_Set_ne _ _ _ _ H3),
    (Header_Get_Set_ne _ _ _ _ H2), (Header_Get_Set_ne _ _ _ _ H1).
Qed.

Lemma withLimitHeaders_other (limit : redis_Limit) (res : redis_Result)
    (w : ResponseWriter) (key : string) :
  CanonicalMIMEHeaderKey "X-RateLimit-Limit" ≠ CanonicalMIMEHeaderKey key →
  CanonicalMIMEHeaderKey "X-RateLimit-Remaining" ≠ CanonicalMIMEHeaderKey key →
  CanonicalMIMEHeaderKey "X-RateLimit-Reset" ≠ CanonicalMIMEHeaderKey key →
  Header_Get (rw_Header (withLimitHeaders limit res w)) key = Header_Get (rw_Header w) key.
Proof.
  intros H1 H2 H3. cbn [withLimitHeaders rw_Header setHeader].
  now rewrite (Header_Get_Set_ne _ _ _ _ H3), (Header_Get_Set_ne _ _ _ _ H2),
    (Header_Get_Set_ne _ _ _ _ H1).
Qed.

Lemma Error_Content_Type (msg : string) (code : Z) (w : ResponseWriter) :
  Header_Get (rw_Header (HTTP.Error msg code w)) "Content-Type"
  = "text/plain; charset=utf-8".
Proof.
  assert (rw_Header (HTTP.Error msg code w)
          = Header_Set "X-Content-Type-Options" "nosniff"
              (Header_Set "Content-Type" "text/plain; charset=utf-8"
                 (Header_Del "Content-Length" (rw_Header w)))) as ->.
  { unfold HTTP.Error, Write, WriteHeader. simpl.
    destruct (rw_Status w) eqn:E; simpl; rewrite ?E; reflexivity. }
  rewrite Header_Get_Set_ne by (vm_compute; discriminate).
  apply Header_Get_Set_eq.
Qed.

Lemma Error_Nosniff (msg : string) (code : Z) (w : ResponseWriter) :
  Header_Get (rw_Header (HTTP.Error msg code w)) "X-Content-Type-Options" = "nosniff".
Proof.
  assert (rw_Header (HTTP.Error msg code w)
          = Header_Set "X-Content-Type-Options" "nosniff"
              (Header_Set "Content-Type" "text/plain; charset=utf-8"
                 (Header_Del "Content-Length" (rw_Header w)))) as ->.
  { unfold HTTP.Error, Write, WriteHeader. simpl.
    destruct (rw_Status w) eqn:E; simpl; rewrite ?E; reflexivity. }
  apply Header_Get_Set_eq.
Qed.

Lemma setHeader_Get_eq (key value : string) (w : ResponseWriter) :
  Header_Get (rw_Header (setHeader key value w)) key = value.
Proof. apply Header_Get_Set_eq. Qed.

Lemma setHeader_Get_ne (key key' value : string) (w : ResponseWriter) :
  CanonicalMIMEHeaderKey key ≠ CanonicalMIMEHeaderKey key' →
  Header_Get (rw_Header (setHeader key value w)) key' = Header_Get (rw_Header w) key'.
Proof. apply Header_Get_Set_ne. Qed.

(** X6: preflight. A request with method OPTIONS is answered by the CORS
    middleware itself: the four CORS headers, status 200, no body, and
    nothing behind it runs; in the chain of main.go the answer is the same
    whatever the limiter's configuration, the counter store and the mux. *)
Theorem CORS_preflight (next : MethodHandler) (r : MethodRequest) (w : ResponseWriter) :
  req_Method r = "OPTIONS" →
  let out := CORS next r w in
  (∀ next' : MethodHandler, CORS next' r w = out)
  ∧ (∀ Allow cfg httpMux, gatewayHandler Allow cfg httpMux r w = out)
  ∧ (rw_Status w = None → rw_Status out = Some 200)
  ∧ rw_Body out = rw_Body w
  ∧ Header_Get (rw_Header out) "Access-Control-Allow-Origin" = "*"
  ∧ Header_Get (rw_Header out) "Access-Control-Allow-Methods"
    = "GET, POST, PUT, DELETE, OPTIONS, PATCH"
  ∧ Header_Get (rw_Header out) "Access-Control-Allow-Headers"
    = "Content-Type, Authorization, X-Requested-With"
  ∧ Header_Get (rw_Header out) "Access-Control-Allow-Credentials" = "true".
Proof.
  intros Hm out. subst out. unfold gatewayHandler, CORS. rewrite Hm.
  change (String.eqb "OPTIONS" "OPTIONS") with true. cbv iota.
  split; [reflexivity|]. split; [reflexivity|].
  destruct (corsHeaders_Get w) as (H1 & H2 & H3 & H4).
  unfold WriteHeader.
  assert (rw_Status (corsHeaders w) = rw_Status w) as Hs by reflexivity.
  assert (rw_Body (corsHeaders w) = rw_Body w) as Hb by reflexivity.
  destruct (rw_Status (corsHeaders w)) eqn:E; cbn [rw_Status rw_Body rw_Header];
    repeat split; auto; congruence.
Qed.

Section WithStore.
Variable Allow : string → redis_Limit → redis_Result + string.

(** X7: a rejection behind CORS. In the chain of main.go a request other
    than OPTIONS that the limiter denies is answered by the limiter and the
    mux is not reached: the answer is [http.Error] with "Too Many
    Requests" and 429 on a response writer on which the four CORS headers,
    the three rate-limit headers and Retry-After were set. It has status
    429, the text as body, every one of these eight headers with its
    value, and the content type and nosniff option of [http.Error]. *)
Theorem gatewayHandler_denied (cfg : RateLimitConfig) (httpMux : MethodHandler)
    (r : MethodRequest) (w : ResponseWriter) (res : redis_Result) :
  req_Method r ≠ "OPTIONS" →
  Enabled cfg = true →
  Allow (getLimit cfg (req_Base r)).1 (getLimit cfg (req_Base r)).2 = inl res →
  Allowed res = 0 →
  let limit := (getLimit cfg (req_Base r)).2 in
  let out := gatewayHandler Allow cfg httpMux r w in
  out = HTTP.Error "Too Many Requests" StatusTooManyRequests
          (setHeader "Retry-After" (FormatInt (Z.quot (RetryAfter res) Second))
             (withLimitHeaders limit res (corsHeaders w)))
  ∧ (∀ httpMux' : MethodHandler, gatewayHandler Allow cfg httpMux' r w = out)
  ∧ (rw_Status w = None → rw_Status out = Some 429)
  ∧ rw_Body out = rw_Body w +:+ "Too Many Requests" +:+ newline
  ∧ Header_Get (rw_Header out) "Access-Control-Allow-Origin" = "*"
  ∧ Header_Get (rw_Header out) "Access-Control-Allow-Methods"
    = "GET, POST, PUT, DELETE, OPTIONS, PATCH"
  ∧ Header_Get (rw_Header out) "Access-Control-Allow-Headers"
    = "Content-Type, Authorization, X-Requested-With"
  ∧ Header_Get (rw_Header out) "Access-Control-Allow-Credentials" = "true"
  ∧ Header_Get (rw_Header out) "X-RateLimit-Limit" = FormatInt (Rate limit)
  ∧ Header_Get (rw_Header out) "X-RateLimit-Remaining" = FormatInt (Remaining res)
  ∧ Header_Get (rw_Header out) "X-RateLimit-Reset"
    = FormatInt (Z.quot (ResetAfter res) Millisecond)
  ∧ Header_Get (rw_Header out) "Retry-After"
    = FormatInt (Z.quot (RetryAfter res) Second)
  ∧ Header_Get (rw_Header out) "Content-Type" = "text/plain; charset=utf-8"
  ∧ Header_Get (rw_Header out) "X-Content-Type-Options" = "nosniff".
Proof.
  intros Hm He Ha Hz limit out.
  assert (∀ mux : MethodHandler,
            gatewayHandler Allow cfg mux r w
            = HTTP.Error "Too Many Requests" StatusTooManyRequests
                (setHeader "Retry-After" (FormatInt (Z.quot (RetryAfter res) Second))
                   (withLimitHeaders limit res (corsHeaders w)))) as Heq.
  { intros mux. subst limit. unfold gatewayHandler, CORS.
    apply String.eqb_neq in Hm. rewrite Hm. unfold Limit. rewrite He. cbn [negb].
    destruct (getLimit cfg (req_Base r)) as [k l]. cbn [fst snd] in *.
    rewrite Ha, Hz. reflexivity. }
  subst out. split; [apply Heq|]. split; [intros mux; now rewrite !Heq|].
  rewrite Heq.
  destruct (corsHeaders_Get w) as (C1 & C2 & C3 & C4).
  destruct (withLimitHeaders_Get limit res (corsHeaders w)) as (L1 & L2 & L3).
  split; [intros Hs; now apply Error_Status|].
  split; [rewrite Error_Body; reflexivity|].
  repeat split.
  - rewrite Error_Header_Get, setHeader_Get_ne, withLimitHeaders_other
      by (vm_compute; discriminate). exact C1.
  - rewrite Error_Header_Get, setHeader_Get_ne, withLimitHeaders_other
      by (vm_compute; discriminate). exact C2.
  - rewrite Error_Header_Get, setHeader_Get_ne, withLimitHeaders_other
      by (vm_compute; discriminate). exact C3.
  - rewrite Error_Header_Get, setHeader_Get_ne, withLimitHeaders_other
      by (vm_compute; discriminate). exact C4.
  - rewrite Error_Header_Get, setHeader_Get_ne by (vm_compute; discriminate). exact L1.
  - rewrite Error_Header_Get, setHeader_Get_ne by (vm_compute; discriminate). exact L2.
  - rewrite Error_Header_Get, setHeader_Get_ne by (vm_compute; discriminate). exact L3.
  - rewrite Error_Header_Get by (vm_compute; discriminate). apply setHeader_Get_eq.
  - apply Error_Content_Type.
  - apply Error_Nosniff.
Qed.

(** X8: a forwarded request behind CORS and the limiter. In the chain of
    main.go a request other than OPTIONS that the limiter allows reaches
    the mux unchanged, with a response writer on which the CORS headers and
    then the three rate-limit headers were set. *)
Theorem gatewayHandler_allowed (cfg : RateLimitConfig) (httpMux : MethodHandler)
    (r : MethodRequest) (w : ResponseWriter) (res : redis_Result) :
  req_Method r ≠ "OPTIONS" →
  Enabled cfg = true →
  Allow (getLimit cfg (req_Base r)).1 (getLimit cfg (req_Base r)).2 = inl res →
  Allowed res ≠ 0 →
  gatewayHandler Allow cfg httpMux r w
  = httpMux r (withLimitHeaders (getLimit cfg (req_Base r)).2 res (corsHeaders w)).
Proof.
  intros Hm He Ha Hz. unfold gatewayHandler, CORS.
  apply String.eqb_neq in Hm. rewrite Hm. unfold Limit. rewrite He. cbn [negb].
  destruct (getLimit cfg (req_Base r)) as [k limit]. cbn [fst snd] in *.
  rewrite Ha. apply Z.eqb_neq in Hz. rewrite Hz. cbn [fst]. now destruct r.
Qed.

End WithStore.

Lemma CORS_preflight_witness :
  gatewayHandler storeDenies sampleConfig okMux preflightRequest emptyResponse
  = CORS okMux preflightRequest emptyResponse
  ∧ rw_Status (CORS okMux preflightRequest emptyResponse) = Some 200
  ∧ rw_Body (CORS okMux preflightRequest emptyResponse) = EmptyString.
Proof.
  destruct (CORS_preflight okMux preflightRequest emptyResponse eq_refl)
    as (_ & H2 & H3 & H4 & _).
  split; [apply H2|]. split; [now apply H3|exact H4].
Defined.

Lemma gatewayHandler_denied_witness :
  let out := gatewayHandler storeDenies sampleConfig okMux getRequest emptyResponse in
  rw_Status out = Some 429
  ∧ rw_Body out = "Too Many Requests" +:+ newline
  ∧ Header_Get (rw_Header out) "Access-Control-Allow-Origin" = "*"
  ∧ Header_Get (rw_Header out) "X-RateLimit-Limit" = "10"
  ∧ Header_Get (rw_Header out) "X-RateLimit-Reset" = "2500"
  ∧ Header_Get (rw_Header out) "Retry-After" = "2".
Proof.
  destruct (gatewayHandler_denied storeDenies sampleConfig okMux getRequest emptyResponse
              {| Allowed := 0; Remaining := 0; RetryAfter := 2500000000;
                 ResetAfter := 2500000000 |})
    as (_ & _ & H3 & H4 & H5 & _ & _ & _ & H9 & _ & H11 & H12 & _); try reflexivity.
  - vm_compute. discriminate.
  - split; [now apply H3|]. split; [exact H4|]. split; [exact H5|].
    split; [exact H9|]. split; [exact H11|exact H12].
Defined.

Lemma gatewayHandler_allowed_witness :
  rw_Body (gatewayHandler storeAllows sampleConfig okMux getRequest emptyResponse) = "ok".
Proof.
  rewrite (gatewayHandler_allowed storeAllows sampleConfig okMux getRequest emptyResponse
             {| Allowed := 1; Remaining := 9; RetryAfter := -1; ResetAfter := 10000000 |});
    try reflexivity; vm_compute; discriminate.
Defined.

End CORSSpec.

(** ** Further properties of the validator and of the interceptor *)
Module AuthMore.
Import GoStrings GoStringsFacts JWT Auth AuthSpec More.

Lemma Validate_nil_iff (c : JWTClaims) (now : Z) :
  Validate c now = []
  ↔ (∀ e, ExpiresAt c = Some e → now < e)
    ∧ (∀ n, NotBefore c = Some n → n <= now).
Proof.
  unfold Validate, verifyExpiresAt, verifyNotBefore. split.
  - intros H. apply app_eq_nil in H as [H1 H2]. split.
    + intros e E. rewrite E in H1.
      destruct (Z.ltb_spec now e); [assumption|discriminate].
    + intros n N. rewrite N in H2.
      destruct (Z.ltb_spec now n); [discriminate|assumption].
  - intros [He Hn].
    assert (match ExpiresAt c with
            | Some e => if Z.ltb now e then [] else [ErrTokenExpired]
            | None => []
            end = []) as ->.
    { destruct (ExpiresAt c) as [e|]; [|reflexivity].
      specialize (He e eq_refl). destruct (Z.ltb_spec now e); [reflexivity|lia]. }
    destruct (NotBefore c) as [n|]; [|reflexivity].
    specialize (Hn n eq_refl). destruct (Z.ltb_spec now n); [lia|reflexivity].
Qed.

Lemma MD_Get_Join (a b : MD) (k : string) :
  MD_Get (Join a b) k = (MD_Get a k ++ MD_Get b k)%list.
Proof.
  unfold MD_Get, Join. rewrite lookup_union_with.
  destruct (a !! k) as [x|]; destruct (b !! k) as [y|]; simpl;
    rewrite ?app_nil_r; reflexivity.
Qed.

Lemma MD_Get_Pairs (k v k' : string) :
  MD_Get (Pairs k v) k' = if String.eqb k' k then [v] else [].
Proof.
  unfold MD_Get, Pairs. destruct (String.eqb_spec k' k) as [->|Hne].
  - now rewrite lookup_singleton_eq.
  - rewrite lookup_singleton_ne by congruence. reflexivity.
Qed.

Section WithParser.
Variable ParseUnverified : string → option RawToken.

(** X9: what the validator accepts. [ValidateToken] returns claims exactly
    for a token that decodes, names an HMAC method, verifies under the
    configured secret, whose expiry (if any) is after the parser's clock
    reading and not before the later reading, and whose not-before (if any)
    is not after the parser's reading; the claims returned are the
    token's. *)
Theorem ValidateToken_accepts_iff (h : JWTHelper) (now_parse now_check : Z)
    (tok : string) (c : JWTClaims) :
  ValidateToken ParseUnverified h now_parse now_check tok = inl c
  ↔ ∃ raw, ParseUnverified tok = Some raw
           ∧ raw_Method raw = SigningMethodHMAC
           ∧ raw_Verify raw (secretKey h) = true
           ∧ raw_Claims raw = c
           ∧ (∀ e, ExpiresAt c = Some e → now_parse < e ∧ now_check <= e)
           ∧ (∀ n, NotBefore c = Some n → n <= now_parse).
Proof.
  unfold ValidateToken, ParseWithClaims. split.
  - destruct (ParseUnverified tok) as [raw|]; [|discriminate].
    destruct (raw_Method raw) eqn:Hm; simpl; try discriminate.
    destruct (raw_Verify raw (secretKey h)) eqn:Hv; simpl; [|discriminate].
    destruct (Validate (raw_Claims raw) now_parse) eqn:HV; [|discriminate].
    apply Validate_nil_iff in HV as [He Hn]. simpl.
    destruct (ExpiresAt (raw_Claims raw)) as [e|] eqn:E.
    + destruct (Z.ltb_spec e now_check); [discriminate|].
      intros [= <-]. exists raw. repeat split; auto.
      * apply He. congruence.
      * assert (e0 = e) by congruence. lia.
    + intros [= <-]. exists raw. repeat split; auto; congruence.
  - intros (raw & Hp & Hm & Hv & <- & He & Hn).
    rewrite Hp, Hm. simpl. rewrite Hv. simpl.
    assert (Validate (raw_Claims raw) now_parse = []) as ->.
    { apply Validate_nil_iff. split; [|exact Hn]. intros e E. now apply He. }
    simpl. destruct (ExpiresAt (raw_Claims raw)) as [e|] eqn:E; [|reflexivity].
    destruct (He e eq_refl). destruct (Z.ltb_spec e now_check); [lia|reflexivity].
Qed.

(** X10: another signing method. A token that decodes and whose header
    names a registered method that is not HMAC is refused by the key
    function, before its signature or claims are looked at; the error is
    the library's "unverifiable" error wrapping [ErrInvalidToken]. A
    token that does not decode, one whose header names no registered
    method among them, is refused earlier, by the parser: the key function
    is not called and the error wraps no [ErrInvalidToken]. *)
Theorem ValidateToken_wrong_algorithm (h : JWTHelper) (now_parse now_check : Z)
    (tok : string) :
  (∀ raw : RawToken,
     ParseUnverified tok = Some raw →
     raw_Method raw ≠ SigningMethodHMAC →
     ValidateToken ParseUnverified h now_parse now_check tok
     = inr (ErrTokenUnverifiable ErrInvalidToken)
     ∧ ExtractMerchantID ParseUnverified h now_parse now_check tok
       = inr (ErrTokenUnverifiable ErrInvalidToken))
  ∧ (ParseUnverified tok = None →
     (∀ keyFunc' : SigningMethod → string + error,
        ParseWithClaims ParseUnverified tok keyFunc' now_parse = inr ErrParseUnverified)
     ∧ ValidateToken ParseUnverified h now_parse now_check tok = inr ErrParseUnverified
     ∧ ExtractMerchantID ParseUnverified h now_parse now_check tok
       = inr ErrParseUnverified).
Proof.
  split.
  - intros raw Hp Hm.
    assert (ValidateToken ParseUnverified h now_parse now_check tok
            = inr (ErrTokenUnverifiable ErrInvalidToken)) as H.
    { unfold ValidateToken, ParseWithClaims. rewrite Hp.
      destruct (raw_Method raw); try reflexivity. contradiction. }
    split; [exact H|]. unfold ExtractMerchantID. now rewrite H.
  - intros Hp.
    assert (∀ keyFunc' : SigningMethod → string + error,
              ParseWithClaims ParseUnverified tok keyFunc' now_parse
              = inr ErrParseUnverified) as H.
    { intros keyFunc'. unfold ParseWithClaims. now rewrite Hp. }
    split; [exact H|].
    unfold ExtractMerchantID, ValidateToken. rewrite H. split; reflexivity.
Qed.

(** X11: the sentinel [ErrInvalidToken]. Neither [ValidateToken] nor
    [ExtractMerchantID] ever returns the value [ErrInvalidToken] itself: a
    refused token comes back with an error built by the library or with
    [ErrExpiredToken]. *)
Theorem ValidateToken_never_ErrInvalidToken (h : JWTHelper) (now_parse now_check : Z)
    (tok : string) :
  ValidateToken ParseUnverified h now_parse now_check tok ≠ inr ErrInvalidToken
  ∧ ExtractMerchantID ParseUnverified h now_parse now_check tok ≠ inr ErrInvalidToken.
Proof.
  assert (ValidateToken ParseUnverified h now_parse now_check tok ≠ inr ErrInvalidToken)
    as H.
  { unfold ValidateToken, ParseWithClaims.
    destruct (ParseUnverified tok) as [raw|]; [|discriminate].
    destruct (keyFunc h (raw_Method raw)); [|discriminate].
    destruct (negb (raw_Verify raw s)); [discriminate|].
    destruct (Validate (raw_Claims raw) now_parse); [|discriminate].
    simpl. destruct (ExpiresAt (raw_Claims raw)) as [e|]; [|discriminate].
    destruct (Z.ltb e now_check); discriminate. }
  split; [exact H|]. unfold ExtractMerchantID.
  destruct (ValidateToken ParseUnverified h now_parse now_check tok) as [c|e];
    [discriminate|]. congruence.
Qed.

Section WithInvoker.
Variable invoker : Context → string → option Status.
Variables now_parse now_check : Z.

(** X14: the outcomes of the interceptor. Every call either is rejected
    with the code Unauthenticated and one of four messages, the invoker
    not being called, or is handed to the invoker exactly once, for the
    same method and with the incoming metadata unchanged, and returns what
    the invoker returns. *)
Theorem Unary_outcomes (a : AuthInterceptor) (ctx : Context) (method : string) :
  let out := Unary ParseUnverified invoker now_parse now_check a ctx method in
  (out.1 = []
   ∧ ∃ msg, msg ∈ rejectionMessages
            ∧ out.2 = Some (status_Error Unauthenticated msg))
  ∨ (∃ ctx', out = ([(ctx', method)], invoker ctx' method)
             ∧ incoming ctx' = incoming ctx).
Proof.
  assert (∀ msg, msg ∈ rejectionMessages →
                 (reject msg).1 = []
                 ∧ ∃ msg', msg' ∈ rejectionMessages
                           ∧ (reject msg).2 = Some (status_Error Unauthenticated msg'))
    as Hr.
  { intros msg Hin. split; [reflexivity|]. now exists msg. }
  cbv zeta. unfold Unary.
  destruct (isPublic a method).
  { right. exists ctx. split; reflexivity. }
  destruct (requestMetadata ctx) as [md ok].
  destruct (negb ok || Nat.eqb (len_MD md) 0).
  { left. apply Hr. apply list_elem_of_In. simpl. auto. }
  destruct (authorizationValues md) as [|authHeader rest].
  { left. apply Hr. apply list_elem_of_In. simpl. auto. }
  destruct (negb (HasPrefix authHeader "Bearer ")).
  { left. apply Hr. apply list_elem_of_In. simpl. auto. }
  destruct (ExtractMerchantID ParseUnverified (jwtHelper a) now_parse now_check
              (TrimPrefix authHeader "Bearer ")) as [merchantID|err].
  - right. eexists. split; reflexivity.
  - left. destruct (error_eqb err ErrExpiredToken);
      apply Hr; apply list_elem_of_In; simpl; auto.
Qed.

(** X15: propagation of the identity. For a call to a protected endpoint
    whose first authorization value is "Bearer <token>" with a token the
    validator accepts, the invoker gets a context with the incoming
    metadata unchanged and outgoing metadata that keeps every value already
    there and has the merchant id of the token appended under
    "x-merchant-id", after any value that key already had. *)
Theorem Unary_propagates (a : AuthInterceptor) (ctx : Context) (method : string)
    (md : MD) (tok : string) (rest : list string) (merchantID : string) :
  isPublic a method = false →
  requestMetadata ctx = (md, true) →
  len_MD md ≠ 0%nat →
  authorizationValues md = ("Bearer " +:+ tok) :: rest →
  ExtractMerchantID ParseUnverified (jwtHelper a) now_parse now_check tok
  = inl merchantID →
  ∃ ctx' md',
    Unary ParseUnverified invoker now_parse now_check a ctx method
    = ([(ctx', method)], invoker ctx' method)
    ∧ incoming ctx' = incoming ctx
    ∧ outgoing ctx' = Some md'
    ∧ ∀ k, MD_Get md' k
           = (MD_Get (FromOutgoingContext ctx).1 k
              ++ if String.eqb k "x-merchant-id" then [merchantID] else [])%list.
Proof.
  intros Hpub Hmd Hlen Hvals Hid. unfold Unary. rewrite Hpub, Hmd.
  apply Nat.eqb_neq in Hlen. rewrite Hlen. cbn [negb orb]. rewrite Hvals.
  rewrite HasPrefix_append, TrimPrefix_append. cbn [negb]. rewrite Hid.
  unfold FromOutgoingContext. destruct (outgoing ctx) as [existingMD|].
  - eexists _, _. split; [reflexivity|]. split; [reflexivity|].
    split; [reflexivity|]. intros k. cbn [fst].
    now rewrite MD_Get_Join, MD_Get_Pairs.
  - eexists _, _. split; [reflexivity|]. split; [reflexivity|].
    split; [reflexivity|]. intros k. cbn [fst].
    rewrite MD_Get_Pairs. unfold MD_Get at 1. now rewrite lookup_empty.
Qed.

(** X16: incoming metadata hides outgoing metadata. When the context has
    incoming metadata that is not empty and holds no value under
    "authorization" or "grpcgateway-authorization", a call to a protected
    endpoint is rejected for a missing header, whatever the outgoing
    metadata holds. *)
Theorem Unary_incoming_masks_outgoing (a : AuthInterceptor) (ctx : Context)
    (method : string) (md_in : MD) :
  isPublic a method = false →
  incoming ctx = Some md_in →
  len_MD md_in ≠ 0%nat →
  MD_Get md_in "authorization" = [] →
  MD_Get md_in "grpcgateway-authorization" = [] →
  Unary ParseUnverified invoker now_parse now_check a ctx method
  = ([], Some (status_Error Unauthenticated "missing authorization header")).
Proof.
  intros Hpub Hin Hlen H1 H2. unfold Unary, requestMetadata, FromIncomingContext.
  rewrite Hpub, Hin. apply Nat.eqb_neq in Hlen. rewrite Hlen. cbn [negb orb].
  rewrite Hlen. unfold authorizationValues. rewrite H1. cbn [length Nat.eqb].
  now rewrite H2.
Qed.

End WithInvoker.
End WithParser.

Lemma ValidateToken_accepts_witness :
  ValidateToken moreParser (jwtHelper sampleInterceptor) 950 960 "aaa.bbb.ccc"
  = inl (raw_Claims sampleRaw).
Proof.
  apply (ValidateToken_accepts_iff moreParser). exists sampleRaw.
  repeat split; try reflexivity.
  - injection H as <-. reflexivity.
  - injection H as <-. discriminate.
  - discriminate.
Defined.

Lemma ValidateToken_wrong_algorithm_witness :
  ValidateToken moreParser (jwtHelper sampleInterceptor) 950 960 "rsa.rsa.rsa"
  = inr (ErrTokenUnverifiable ErrInvalidToken)
  ∧ ValidateToken moreParser (jwtHelper sampleInterceptor) 950 960 "xx.xx.xx"
    = inr ErrParseUnverified.
Proof.
  split.
  - destruct (ValidateToken_wrong_algorithm moreParser (jwtHelper sampleInterceptor)
                950 960 "rsa.rsa.rsa") as [H _].
    destruct (H rsaRaw) as [HV _]; [reflexivity|discriminate|exact HV].
  - destruct (ValidateToken_wrong_algorithm moreParser (jwtHelper sampleInterceptor)
                950 960 "xx.xx.xx") as [_ H].
    destruct H as (_ & HV & _); [reflexivity|exact HV].
Defined.

Lemma ValidateToken_ErrExpiredToken_witness :
  ∃ raw e, moreParser "aaa.bbb.ccc" = Some raw
           ∧ ExpiresAt (raw_Claims raw) = Some e
           ∧ 900 < e < 2000.
Proof.
  apply (ValidateToken_ErrExpiredToken moreParser (jwtHelper sampleInterceptor)
           900 2000 "aaa.bbb.ccc").
  reflexivity.
Defined.

Lemma Unary_expiry_between_readings_witness :
  Unary moreParser sampleInvoker 900 2000 sampleInterceptor sampleContext
    "/user.v1.MerchantService/GetMerchant"
  = ([], Some (status_Error Unauthenticated "token has expired")).
Proof.
  apply (Unary_expiry_between_readings moreParser sampleInvoker 900 2000
           sampleInterceptor sampleContext "/user.v1.MerchantService/GetMerchant"
           {[ "authorization" := ["Bearer aaa.bbb.ccc"] ]} "aaa.bbb.ccc" []
           sampleRaw 1000); try reflexivity.
  split; reflexivity.
Defined.

Lemma Unary_propagates_witness :
  ∃ ctx' md',
    Unary moreParser sampleInvoker 950 960 sampleInterceptor outgoingContext
      "/user.v1.MerchantService/GetMerchant"
    = ([(ctx', "/user.v1.MerchantService/GetMerchant")], None)
    ∧ outgoing ctx' = Some md'
    ∧ MD_Get md' "x-merchant-id" = ["m-9"; "m-1"]
    ∧ MD_Get md' "x-lang" = ["id-ID"].
Proof.
  destruct (Unary_propagates moreParser sampleInvoker 950 960 sampleInterceptor
              outgoingContext "/user.v1.MerchantService/GetMerchant"
              {[ "grpcgateway-authorization" := ["Bearer aaa.bbb.ccc"];
                 "x-lang" := ["id-ID"]; "x-merchant-id" := ["m-9"] ]}
              "aaa.bbb.ccc" [] "m-1")
    as (ctx' & md' & H1 & _ & H3 & H4); try reflexivity.
  - vm_compute. discriminate.
  - exists ctx', md'. split; [exact H1|]. split; [exact H3|].
    split; rewrite H4; reflexivity.
Defined.

Lemma Unary_incoming_masks_outgoing_witness :
  Unary moreParser sampleInvoker 950 960 sampleInterceptor maskedContext
    "/user.v1.MerchantService/GetMerchant"
  = ([], Some (status_Error Unauthenticated "missing authorization header")).
Proof.
  apply (Unary_incoming_masks_outgoing moreParser sampleInvoker 950 960
           sampleInterceptor maskedContext "/user.v1.MerchantService/GetMerchant"
           {[ "x-lang" := ["id-ID"] ]}); try reflexivity.
  vm_compute. discriminate.
Defined.

End AuthMore.

(** ** Further properties of the endpoint discovery *)
Module ReflectionMore.
Import GoStrings JWT Auth Reflection ReflectionSpec More.

(** The map of a scan holds [true] under the keys of the annotated methods
    and nothing else. *)
Lemma scanFiles_lookup (files : list FileDescriptor) (key : string) :
  (scanFiles files !! key = Some true
   ↔ ∃ fd service method,
       fd ∈ files ∧ service ∈ fd_Services fd ∧ method ∈ sd_Methods service
       ∧ isPublicEndpoint method = true
       ∧ key = fullMethodName service method)
  ∧ (scanFiles files !! key = None ∨ scanFiles files !! key = Some true).
Proof.
  unfold scanFiles. split.
  - rewrite foldl_scanFile_lookup. rewrite lookup_empty. split.
    + intros [H | H]; [discriminate|exact H].
    + intros H. now right.
  - destruct (foldl scanFile ∅ files !! key) as [b|] eqn:E; [|now left].
    right. f_equal. apply (foldl_scanFile_allTrue files ∅) in E; [exact E|].
    intros k b'. now rewrite lookup_empty.
Qed.

Lemma scanFiles_same_files (files files' : list FileDescriptor) :
  (∀ fd, fd ∈ files ↔ fd ∈ files') → scanFiles files = scanFiles files'.
Proof.
  intros Hsame. apply map_eq. intros key.
  destruct (scanFiles_lookup files key) as [H1 C1].
  destruct (scanFiles_lookup files' key) as [H2 C2].
  assert (scanFiles files !! key = Some true ↔ scanFiles files' !! key = Some true) as Hiff.
  { rewrite H1, H2. split; intros (fd & s & m & Hf & Hrest); exists fd, s, m;
      (split; [now apply Hsame|exact Hrest]). }
  destruct C1 as [E1|E1]; destruct C2 as [E2|E2]; rewrite E1, E2; try reflexivity.
  - apply Hiff in E2. congruence.
  - apply Hiff in E1. congruence.
Qed.

(** X17: the order of the registry. The first call returns the same map and
    leaves the same cache whatever the order in which the registry hands
    out its files. *)
Theorem DiscoverPublicEndpoints_order (files files' : list FileDescriptor) :
  files ≡ₚ files' →
  DiscoverPublicEndpoints files None = DiscoverPublicEndpoints files' None.
Proof.
  intros Hp. unfold DiscoverPublicEndpoints.
  rewrite (scanFiles_same_files files files'); [reflexivity|].
  intros fd. now rewrite Hp.
Qed.

Lemma DiscoverCalls_cached (calls : list (list FileDescriptor)) (c : gmap string bool) :
  DiscoverCalls calls (Some c) = (replicate (length calls) c, Some c).
Proof.
  induction calls as [|files calls IH]; [reflexivity|].
  cbn [DiscoverCalls DiscoverPublicEndpoints]. rewrite IH. reflexivity.
Qed.

(** X18: one scan per process. In any run of calls that starts with a nil
    cache, every call returns the map scanned at the first call, whatever
    the registry holds at the later calls, and the cache ends as that map,
    also when the map is empty. *)
Theorem DiscoverCalls_first_scan (files : list FileDescriptor)
    (calls : list (list FileDescriptor)) :
  DiscoverCalls (files :: calls) None
  = (replicate (S (length calls)) (scanFiles files), Some (scanFiles files)).
Proof.
  cbn [DiscoverCalls DiscoverPublicEndpoints]. rewrite DiscoverCalls_cached. reflexivity.
Qed.

Section WithInterceptor.
Variable ParseUnverified : string → option RawToken.
Variable invoker : Context → string → option Status.
Variables now_parse now_check : Z.

(** X19: discovery drives the interceptor. With the interceptor built from
    the discovered map, a method is exempt exactly when some registered
    method with its full name carries the annotation with value true; a
    call to an exempt method reaches the invoker with its context
    untouched, and a call without metadata to any other method is rejected
    as unauthenticated. *)
Theorem discovered_endpoints_exempt (h : JWTHelper) (files : list FileDescriptor)
    (ctx : Context) (name : string) :
  let a := {| jwtHelper := h;
              publicEndpoints := (DiscoverPublicEndpoints files None).1 |} in
  (isPublic a name = true
   ↔ ∃ fd service method,
       fd ∈ files ∧ service ∈ fd_Services fd ∧ method ∈ sd_Methods service
       ∧ isPublicEndpoint method = true
       ∧ name = fullMethodName service method)
  ∧ (isPublic a name = true →
       Unary ParseUnverified invoker now_parse now_check a ctx name
       = ([(ctx, name)], invoker ctx name))
  ∧ (isPublic a name = false → incoming ctx = None → outgoing ctx = None →
       Unary ParseUnverified invoker now_parse now_check a ctx name
       = ([], Some (status_Error Unauthenticated "missing authorization header"))).
Proof.
  intros a. split; [|split].
  - rewrite AuthSpec.isPublic_true_iff. subst a. cbn [publicEndpoints DiscoverPublicEndpoints fst].
    apply scanFiles_lookup.
  - intros H. unfold Unary. now rewrite H.
  - intros H Hi Ho. unfold Unary, requestMetadata, FromIncomingContext, FromOutgoingContext.
    rewrite H, Hi, Ho. reflexivity.
Qed.

End WithInterceptor.

Lemma DiscoverPublicEndpoints_order_witness :
  DiscoverPublicEndpoints sampleFiles None
  = DiscoverPublicEndpoints (reverse sampleFiles) None.
Proof.
  apply DiscoverPublicEndpoints_order. symmetry. apply reverse_Permutation.
Defined.

Lemma DiscoverCalls_first_scan_witness :
  DiscoverCalls [[]; sampleFiles; sampleFiles] None = ([∅; ∅; ∅], Some ∅).
Proof. apply (DiscoverCalls_first_scan [] [sampleFiles; sampleFiles]). Defined.

Lemma discovered_endpoints_exempt_witness :
  Unary sampleParser sampleInvoker 2000 2000
    {| jwtHelper := {| secretKey := "s3cret" |};
       publicEndpoints := (DiscoverPublicEndpoints sampleFiles None).1 |}
    emptyContext "/user.v1.MerchantService/LoginMerchant"
  = ([(emptyContext, "/user.v1.MerchantService/LoginMerchant")], None)
  ∧ Unary sampleParser sampleInvoker 2000 2000
      {| jwtHelper := {| secretKey := "s3cret" |};
         publicEndpoints := (DiscoverPublicEndpoints sampleFiles None).1 |}
      emptyContext "/user.v1.MerchantService/UpdateMerchant"
    = ([], Some (status_Error Unauthenticated "missing authorization header")).
Proof.
  split.
  - destruct (discovered_endpoints_exempt sampleParser sampleInvoker 2000 2000
                {| secretKey := "s3cret" |} sampleFiles emptyContext
                "/user.v1.MerchantService/LoginMerchant") as (_ & H & _).
    apply H. reflexivity.
  - destruct (discovered_endpoints_exempt sampleParser sampleInvoker 2000 2000
                {| secretKey := "s3cret" |} sampleFiles emptyContext
                "/user.v1.MerchantService/UpdateMerchant") as (_ & _ & H).
    apply H; reflexivity.
Defined.

End ReflectionMore.

(** ** Further properties of the marshaler *)
Module MarshalerMore.
Import GoStrings GoStringsFacts Marshaler MarshalerSpec.

(** Codes above 16 have no entry in the table. *)
Lemma HTTPStatusFromCode_unknown (code : Z) :
  code < 0 ∨ 16 < code → HTTPStatusFromCode code = 500.
Proof.
  intros H. destruct code as [|p|p]; [lia| |reflexivity].
  do 5 (destruct p as [p|p|]; try reflexivity; try lia).
Qed.

Lemma HTTPStatusFromCode_range (code : Z) :
  200 <= HTTPStatusFromCode code <= 504.
Proof.
  destruct (Z_lt_le_dec code 0) as [Hn|Hp].
  { rewrite HTTPStatusFromCode_unknown by lia. lia. }
  destruct (Z_lt_le_dec 16 code) as [Hb|Hs].
  { rewrite HTTPStatusFromCode_unknown by lia. lia. }
  assert (code = 0 ∨ code = 1 ∨ code = 2 ∨ code = 3 ∨ code = 4 ∨ code = 5
          ∨ code = 6 ∨ code = 7 ∨ code = 8 ∨ code = 9 ∨ code = 10 ∨ code = 11
          ∨ code = 12 ∨ code = 13 ∨ code = 14 ∨ code = 15 ∨ code = 16) as H by lia.
  repeat (destruct H as [-> | H]; [simpl; lia|]). subst code. simpl. lia.
Qed.

Section WithRuntime.
Variable int_of_unrepresentable : float → Z.
Variable FormatFloat : float → string.
Variable escapeString : string → string.
Variable payload : Type.
Variable JSONPb_Marshal : Value payload → result json.

Local Abbreviation MarshalDoc := (Marshaler.MarshalDoc int_of_unrepresentable JSONPb_Marshal).
Local Abbreviation Marshal :=
  (Marshaler.Marshal int_of_unrepresentable FormatFloat escapeString JSONPb_Marshal).
Local Abbreviation statusCodeOf := (Marshaler.statusCodeOf int_of_unrepresentable).

Lemma statusCodeOf_range (code : dyn) : 200 <= statusCodeOf code <= 504.
Proof.
  destruct code; simpl; try lia; apply HTTPStatusFromCode_range.
Qed.

(** X20: when marshaling returns an error. [Marshal] returns an error in
    two cases only, and then that very error: a value on the success path
    that the embedded marshaler refuses, and a map with "code" and
    "message" whose message value [encoding/json] cannot write. For a
    [*status.Status] that is not nil it returns the bytes of the failure
    envelope. *)
Theorem Marshal_error_iff (v : Value payload) (err : string) :
  (Marshal v = inr err
   ↔ (successPath v ∧ JSONPb_Marshal v = inr err)
     ∨ (∃ m code msg, v = VMap m ∧ m !! "code" = Some code
                      ∧ m !! "message" = Some msg
                      ∧ json_Marshal_dyn msg = inr err))
  ∧ (∀ (code : Z) (message : string),
       Marshal (VStatus code message)
       = inl (Marshaler.render FormatFloat escapeString
                (JObject [("data", JNull); ("message", JString message);
                          ("status", JInt (HTTPStatusFromCode (Code code)))]))).
Proof.
  split; [|intros code message; unfold Marshaler.Marshal;
           now rewrite MarshalDoc_Status].
  unfold Marshaler.Marshal.
  destruct (successPath_or_failure payload v)
    as [Hs | [(m & code & msg & -> & Hc & Hm) | (code & message & ->)]].
  - rewrite (MarshalDoc_success int_of_unrepresentable payload JSONPb_Marshal v Hs).
    split.
    + destruct (JSONPb_Marshal v) as [data|e] eqn:E; [discriminate|].
      intros [= <-]. left. now split.
    + intros [[_ H] | (m & code & msg & -> & Hc & Hm & _)].
      * now rewrite H.
      * simpl in Hs. destruct Hs; congruence.
  - rewrite (MarshalDoc_error_map int_of_unrepresentable payload JSONPb_Marshal
               m code msg Hc Hm), json_Marshal_failureMap.
    split.
    + destruct (json_Marshal_dyn msg) as [j|e] eqn:E; [discriminate|].
      intros [= <-]. right. now exists m, code, msg.
    + intros [[Hs _] | (m' & code' & msg' & [= <-] & Hc' & Hm' & H)].
      * simpl in Hs. destruct Hs; congruence.
      * assert (msg' = msg) as -> by congruence. now rewrite H.
  - rewrite MarshalDoc_Status. split; [discriminate|].
    intros [[[] _] | (m & code' & msg & [=] & _)].
Qed.

(** X21: the status written. The envelope of every marshaled value holds
    under "status" an integer between 200 and 504. *)
Theorem MarshalDoc_status_range (v : Value payload) (j : json) :
  MarshalDoc v = inl j →
  ∃ members st, j = JObject members
                ∧ ("status", JInt st) ∈ members
                ∧ 200 <= st <= 504.
Proof.
  destruct (successPath_or_failure payload v)
    as [Hs | [(m & code & msg & -> & Hc & Hm) | (code & message & ->)]].
  - rewrite (MarshalDoc_success int_of_unrepresentable payload JSONPb_Marshal v Hs).
    destruct (JSONPb_Marshal v) as [data|e]; [|discriminate].
    intros [= <-]. eexists _, 200. split; [reflexivity|]. split; [|lia].
    apply elem_of_cons. now left.
  - rewrite (MarshalDoc_error_map int_of_unrepresentable payload JSONPb_Marshal
               m code msg Hc Hm), json_Marshal_failureMap.
    destruct (json_Marshal_dyn msg) as [jm|e]; [|discriminate].
    intros [= <-]. eexists _, _. split; [reflexivity|]. split.
    + do 2 (apply elem_of_cons; right). apply elem_of_cons. now left.
    + apply statusCodeOf_range.
  - rewrite MarshalDoc_Status. intros [= <-].
    eexists _, _. split; [reflexivity|]. split.
    + do 2 (apply elem_of_cons; right). apply elem_of_cons. now left.
    + apply HTTPStatusFromCode_range.
Qed.

(** X22: codes as uint32. The status of an integer code depends on the code
    modulo 2^32 only: a code from 0 to 16 and every code that differs from
    it by a multiple of 2^32 get the status of the table, and every code
    whose residue is above 16 (a negative code among them) gets 500. *)
Theorem statusCodeOf_wraps (val n : Z) :
  statusCodeOf (DInt (val + n * 2 ^ 32)) = statusCodeOf (DInt val)
  ∧ statusCodeOf (DInt32 val) = statusCodeOf (DInt val)
  ∧ (16 < val mod 2 ^ 32 → statusCodeOf (DInt val) = 500)
  ∧ (0 <= val <= 16 → statusCodeOf (DInt val) = HTTPStatusFromCode val).
Proof.
  cbn [Marshaler.statusCodeOf]. unfold Code. repeat split.
  - now rewrite Z.mod_add by lia.
  - intros H. apply HTTPStatusFromCode_unknown. now right.
  - intros H. rewrite Z.mod_small by lia. reflexivity.
Qed.

(** X23: a code decoded from JSON. A float64 code whose truncation fits an
    int is treated as that int: the status is the same, whatever the
    platform does with values that do not fit, and so is the document for
    a map that holds a message. *)
Theorem statusCodeOf_float (m : gmap string dyn) (msg : dyn) (f : float) (t : Z) :
  float64_trunc f = Some t →
  m !! "message" = Some msg →
  statusCodeOf (DFloat64 f) = statusCodeOf (DInt t)
  ∧ MarshalDoc (VMap (<["code" := DFloat64 f]> m))
    = MarshalDoc (VMap (<["code" := DInt t]> m)).
Proof.
  intros Ht Hm.
  assert (statusCodeOf (DFloat64 f) = statusCodeOf (DInt t)) as Hs.
  { cbn [Marshaler.statusCodeOf]. unfold float64_to_int. now rewrite Ht. }
  split; [exact Hs|].
  rewrite (MarshalDoc_error_map int_of_unrepresentable payload JSONPb_Marshal
             (<["code" := DFloat64 f]> m) (DFloat64 f) msg);
    [|apply lookup_insert_eq|now rewrite lookup_insert_ne].
  rewrite (MarshalDoc_error_map int_of_unrepresentable payload JSONPb_Marshal
             (<["code" := DInt t]> m) (DInt t) msg);
    [|apply lookup_insert_eq|now rewrite lookup_insert_ne].
  now rewrite Hs.
Qed.

End WithRuntime.

Lemma Marshal_error_iff_witness :
  Marshal sampleOverflow sampleFormatFloat sampleEscape sampleJSONPb
    (VMap {[ "code" := DInt 3; "message" := DFloat64 nan ]})
  = inr "json: unsupported value: NaN".
Proof.
  apply (proj1 (Marshal_error_iff sampleOverflow sampleFormatFloat sampleEscape unit
                  sampleJSONPb (VMap {[ "code" := DInt 3; "message" := DFloat64 nan ]})
                  "json: unsupported value: NaN")).
  right. eexists _, (DInt 3), (DFloat64 nan). repeat split; reflexivity.
Defined.

Lemma MarshalDoc_status_range_witness :
  ∃ members st,
    JObject [("data", JNull); ("message", JString "slow down"); ("status", JInt 429)]
    = JObject members
    ∧ ("status", JInt st) ∈ members ∧ 200 <= st <= 504.
Proof.
  apply (MarshalDoc_status_range sampleOverflow unit sampleJSONPb
           (VStatus 8 "slow down")).
  vm_compute. reflexivity.
Defined.

Lemma statusCodeOf_wraps_witness :
  statusCodeOf sampleOverflow (DInt 4294967301) = 404
  ∧ statusCodeOf sampleOverflow (DInt (-1)) = 500.
Proof.
  destruct (statusCodeOf_wraps sampleOverflow 5 1) as (H1 & _ & _ & H4).
  destruct (statusCodeOf_wraps sampleOverflow (-1) 0) as (_ & _ & H3 & _).
  split.
  - change 4294967301 with (5 + 1 * 2 ^ 32). rewrite H1. apply H4. lia.
  - apply H3. reflexivity.
Defined.

Lemma statusCodeOf_float_witness :
  MarshalDoc sampleOverflow sampleJSONPb
    (VMap (<["code" := DFloat64 5%float]> {[ "message" := DString "merchant not found" ]}))
  = inl (JObject [("data", JNull); ("message", JString "merchant not found");
                  ("status", JInt 404)]).
Proof.
  assert (({[ "message" := DString "merchant not found" ]} : gmap string dyn)
            !! "message" = Some (DString "merchant not found")) as Hm
    by (vm_compute; reflexivity).
  destruct (statusCodeOf_float sampleOverflow unit sampleJSONPb
              {[ "message" := DString "merchant not found" ]}
              (DString "merchant not found") 5%float 5 eq_refl Hm) as [_ H].
  rewrite H. vm_compute. reflexivity.
Defined.

End MarshalerMore.

(** ** The metadata annotators *)
Module AnnotatorSpec.
Import GoStrings HTTP Auth Annotator.

Lemma MD_Get_Set (md : MD) (k v k' : string) :
  MD_Get (MD_Set k v md) k' = if String.eqb k' k then [v] else MD_Get md k'.
Proof.
  unfold MD_Get, MD_Set. destruct (String.eqb_spec k' k) as [->|Hne].
  - now rewrite lookup_insert_eq.
  - now rewrite lookup_insert_ne by congruence.
Qed.

Lemma MD_Get_empty (k : string) : MD_Get ∅ k = [].
Proof. unfold MD_Get. now rewrite lookup_empty. Qed.

Lemma MetadataAnnotator_keys_aux (req : Request) (k : string) :
  MD_Get (MetadataAnnotator req) k
  = if String.eqb k "x-lang"
    then (if String.eqb (Header_Get (req_Header req) "Accept-Language") EmptyString
          then [] else [Header_Get (req_Header req) "Accept-Language"])
    else if String.eqb k "x-timezone"
         then (if String.eqb (Header_Get (req_Header req) "X-Timezone") EmptyString
               then [] else [Header_Get (req_Header req) "X-Timezone"])
         else [].
Proof.
  unfold MetadataAnnotator.
  destruct (String.eqb (Header_Get (req_Header req) "Accept-Language") EmptyString);
    destruct (String.eqb (Header_Get (req_Header req) "X-Timezone") EmptyString);
    cbn [negb]; rewrite ?MD_Get_Set, ?MD_Get_empty;
    destruct (String.eqb k "x-timezone") eqn:E2;
    destruct (String.eqb k "x-lang") eqn:E1; try reflexivity;
    apply String.eqb_eq in E1; apply String.eqb_eq in E2; congruence.
Qed.

(** X24: what the annotator forwards. The metadata built from a request
    holds the first Accept-Language value under "x-lang" and the first
    X-Timezone value under "x-timezone", each only when it is not empty,
    and nothing under any other key, whatever else the request carries. *)
Theorem MetadataAnnotator_keys (req : Request) (k : string) :
  let lang := Header_Get (req_Header req) "Accept-Language" in
  let tz := Header_Get (req_Header req) "X-Timezone" in
  MD_Get (MetadataAnnotator req) k
  = if String.eqb k "x-lang" then (if String.eqb lang EmptyString then [] else [lang])
    else if String.eqb k "x-timezone"
         then (if String.eqb tz EmptyString then [] else [tz])
         else [].
Proof.
  intros lang tz. subst lang tz. apply MetadataAnnotator_keys_aux.
Qed.

(** X25: the credential in the gateway's metadata. The metadata function of
    main.go adds the first Authorization value, as it is, under
    "authorization" when it is not empty, so that the interceptor finds
    exactly that value or none; the other keys are those of the
    annotator. *)
Theorem gatewayMetadata_credential (req : Request) :
  let auth := Header_Get (req_Header req) "Authorization" in
  authorizationValues (gatewayMetadata req)
  = (if String.eqb auth EmptyString then [] else [auth])
  ∧ ∀ k, k ≠ "authorization" →
         MD_Get (gatewayMetadata req) k = MD_Get (MetadataAnnotator req) k.
Proof.
  intros auth.
  assert (MD_Get (MetadataAnnotator req) "authorization" = []) as Ha
    by (rewrite MetadataAnnotator_keys_aux; reflexivity).
  assert (MD_Get (MetadataAnnotator req) "grpcgateway-authorization" = []) as Hg
    by (rewrite MetadataAnnotator_keys_aux; reflexivity).
  unfold gatewayMetadata, authorizationValues. fold auth.
  destruct (String.eqb auth EmptyString); cbn [negb]; split.
  - now rewrite Ha, Hg.
  - reflexivity.
  - rewrite MD_Get_Set. reflexivity.
  - intros k Hk. rewrite MD_Get_Set.
    destruct (String.eqb_spec k "authorization"); [contradiction|reflexivity].
Qed.

Lemma MetadataAnnotator_keys_witness :
  MD_Get (MetadataAnnotator localizedRequest) "x-lang" = ["id-ID"]
  ∧ MD_Get (MetadataAnnotator localizedRequest) "authorization" = []
  ∧ MD_Get (MetadataAnnotator localizedRequest) "cookie" = [].
Proof.
  split; [|split].
  - exact (MetadataAnnotator_keys localizedRequest "x-lang").
  - exact (MetadataAnnotator_keys localizedRequest "authorization").
  - exact (MetadataAnnotator_keys localizedRequest "cookie").
Defined.

Lemma gatewayMetadata_credential_witness :
  authorizationValues (gatewayMetadata localizedRequest) = ["Bearer aaa.bbb.ccc"].
Proof.
  destruct (gatewayMetadata_credential localizedRequest) as [H _]. rewrite H.
  reflexivity.
Defined.

End AnnotatorSpec.
